(** * Daily price tracker: price normalization, trends, history and alert state

    A shallow embedding of [tracker.py].  Python floats are IEEE binary64
    numbers, modelled by Rocq's primitive floats; [dict]s read from JSON are
    finite maps; the two JSON stores are passed explicitly, [None] standing
    for a file that does not exist; exceptions are values of a small error
    monad; the clock and the price provider are inputs of each command. *)

From Stdlib Require Import Floats ZArith String Ascii Lia.
From stdpp Require Import gmap strings list sorting.

Local Open Scope Z_scope.

(** ** Python primitives used by the tracker *)

Module Py.

(** The exceptions that the modelled code can meet. *)
Inductive exn : Type :=
  | ZeroDivisionError
  | IndexError
  | KeyError
  | TypeError
  | ProviderError.   (* anything raised inside the yfinance call *)

Inductive result (A : Type) : Type :=
  | Ok (a : A)
  | Raise (e : exn).
Global Arguments Ok {A} a.
Global Arguments Raise {A} e.

Definition bind {A B} (m : result A) (k : A → result B) : result B :=
  match m with
  | Ok a => k a
  | Raise e => Raise e
  end.

(** [try: body except Exception: handler] *)
Definition try_except {A} (body : result A) (handler : exn → A) : A :=
  match body with
  | Ok a => a
  | Raise e => handler e
  end.

(** Float comparisons, in Python's spelling. *)
Definition gt (a b : float) : bool := PrimFloat.ltb b a.
Definition ge (a b : float) : bool := PrimFloat.leb b a.
Definition le (a b : float) : bool := PrimFloat.leb a b.
Definition eq (a b : float) : bool := PrimFloat.eqb a b.
Definition ne (a b : float) : bool := negb (PrimFloat.eqb a b).

(** [a / b] on floats raises when the divisor compares equal to zero and
    is the IEEE quotient otherwise. *)
Definition truediv (a b : float) : result float :=
  if PrimFloat.eqb b 0 then Raise ZeroDivisionError
  else Ok (PrimFloat.div a b).

(** [s.endswith(suffix)] *)
Definition endswith (s suffix : string) : bool :=
  let n := String.length s in
  let k := String.length suffix in
  (k <=? n)%nat && String.eqb (substring (n - k) k s) suffix.

(** [a >= b] and [a != b] on [str]: lexicographic by code point, which on
    UTF-8 encoded strings is the order of the bytes. *)
Definition str_ge (a b : string) : bool := String.leb b a.
Definition str_lt (a b : string) : bool := String.ltb a b.
Definition str_ne (a b : string) : bool := negb (String.eqb a b).

(** [data.empty], [not l] *)
Definition empty {A} (l : list A) : bool :=
  match l with [] => true | _ => false end.

(** [l[i]], with Python's negative indices and [IndexError]. *)
Definition getitem {A} (l : list A) (i : Z) : result A :=
  let n := Z.of_nat (length l) in
  let j := if i <? 0 then i + n else i in
  if (j <? 0) || (n <=? j) then Raise IndexError
  else match l !! Z.to_nat j with
       | Some x => Ok x
       | None => Raise IndexError
       end.

(** [l.sort(key=..., reverse=True)]: a stable sort into descending key
    order; elements with equal keys keep their original relative order.
    Insertion from the right realises exactly that order. *)
Fixpoint insert_desc {A} (key : A → string) (x : A) (l : list A) : list A :=
  match l with
  | [] => [x]
  | y :: ys =>
      if str_lt (key x) (key y) then y :: insert_desc key x ys
      else x :: y :: ys
  end.

Fixpoint sort_desc {A} (key : A → string) (l : list A) : list A :=
  match l with
  | [] => []
  | x :: xs => insert_desc key x (sort_desc key xs)
  end.

(** [for x in l: s = body(s, x)], stopping at the first exception. *)
Fixpoint for_each {A S} (body : S → A → result S) (l : list A) (s : S)
    : result S :=
  match l with
  | [] => Ok s
  | x :: xs =>
      match body s x with
      | Ok s' => for_each body xs s'
      | Raise e => Raise e
      end
  end.

End Py.

Import Py.

Global Instance result_bind : MBind result := λ A B k m, Py.bind m k.
Global Instance result_ret : MRet result := λ A a, Ok a.

(** ** Calendar dates of the [datetime] library *)

Module Datetime.

(** The calendar date of a clock reading in the reference timezone
    (proleptic Gregorian calendar). *)
Record datetime : Type := mkdatetime { year : Z; month : Z; day : Z }.

Definition is_leap (y : Z) : bool :=
  (y mod 4 =? 0) && (negb (y mod 100 =? 0) || (y mod 400 =? 0)).

Definition days_in_month (y m : Z) : Z :=
  match m with
  | 2 => if is_leap y then 29 else 28
  | 4 | 6 | 9 | 11 => 30
  | _ => 31
  end.

Definition days_before_month (y m : Z) : Z :=
  match m with
  | 1 => 0 | 2 => 31 | 3 => 59 | 4 => 90 | 5 => 120 | 6 => 151
  | 7 => 181 | 8 => 212 | 9 => 243 | 10 => 273 | 11 => 304 | _ => 334
  end + (if (2 <? m) && is_leap y then 1 else 0).

Definition days_before_year (y : Z) : Z :=
  let p := y - 1 in p * 365 + p / 4 - p / 100 + p / 400.

(** [date.toordinal()]: 1 is 0001-01-01. *)
Definition toordinal (d : datetime) : Z :=
  days_before_year (year d) + days_before_month (year d) (month d) + day d.

(** The dates of the library: years 1 to 9999, a month of the year and a
    day of that month. *)
Definition valid (d : datetime) : Prop :=
  1 ≤ year d ≤ 9999 ∧ 1 ≤ month d ≤ 12 ∧
  1 ≤ day d ≤ days_in_month (year d) (month d).

(** A month of the year and a day of that month, in any year. *)
Definition valid_md (d : datetime) : Prop :=
  1 ≤ month d ≤ 12 ∧ 1 ≤ day d ≤ days_in_month (year d) (month d).

(** Dates whose fields fit the columns of [%Y-%m-%d]. *)
Definition fits (d : datetime) : Prop :=
  0 ≤ year d < 10000 ∧ 0 ≤ month d < 100 ∧ 0 ≤ day d < 100.

(** The calendar day before [d]. *)
Definition prev_day (d : datetime) : datetime :=
  if 1 <? day d then mkdatetime (year d) (month d) (day d - 1)
  else if 1 <? month d then
    mkdatetime (year d) (month d - 1) (days_in_month (year d) (month d - 1))
  else mkdatetime (year d - 1) 12 31.

(** [d - timedelta(days=n)]: wall-clock arithmetic, the time of day is
    unchanged and the date moves back [n] calendar days. *)
Definition minus_days (d : datetime) (n : nat) : datetime := Nat.iter n prev_day d.

Definition digit (n : Z) : ascii := ascii_of_N (48 + Z.to_N n).

(** [k] decimal digits of [n], zero padded, most significant first. *)
Fixpoint zero_padded (k : nat) (n : Z) : string :=
  match k with
  | O => EmptyString
  | S k' => String (digit (n / 10 ^ Z.of_nat k'))
                   (zero_padded k' (n mod 10 ^ Z.of_nat k'))
  end.

(** [d.strftime("%Y-%m-%d")]: the year in four digits (as it is written for
    every year from 1000 on), the month and the day in two. *)
Definition strftime_ymd (d : datetime) : string :=
  zero_padded 4 (year d) +:+ "-" +:+ zero_padded 2 (month d) +:+ "-"
    +:+ zero_padded 2 (day d).

End Datetime.

Import Datetime.

(** ** The tracker *)

(** One row of the provider's answer: [data["Open"]], [data["Close"]]. *)
Record bar : Type := mkbar { Open : float; Close : float }.

(** [yf.Ticker(symbol).history(period=...)]: the rows, oldest first, or an
    exception. *)
Definition provider : Type := string → string → result (list bar).

Record asset_config : Type := mkasset {
  ticker : string;
  name : string;
  emoji : string;
  native_currency : string;
  unit : string;
}.

(** [ASSETS]: a [dict] iterates in insertion order. *)
Definition ASSETS : list (string * asset_config) :=
  [ ("gold_gbp", mkasset "GC=F" "Gold" "🥇" "USD" "per oz");
    ("iswd", mkasset "ISWD.L" "ISWD" "📈" "GBP" "");
    ("hbks", mkasset "HBKS.L" "HBKS" "📊" "GBP" "") ].

Definition PENCE_THRESHOLD : float := 100%float.

Definition HISTORY_DAYS : nat := 90.

(** The [dict] returned by [get_asset_price]. *)
Record price_data : Type := mkprice {
  price_gbp : float;
  open_gbp : float;
  prev_close_gbp : float;
  price_usd : option float;
  open_usd : option float;
  prev_close_usd : option float;
}.

(** [get_gbp_usd_rate] *)
Definition get_gbp_usd_rate (yf : provider) : option float :=
  try_except
    (data ← yf "GBPUSD=X" "1d";
     if empty data then Ok None
     else
       row ← getitem data (-1);
       Ok (Some (Close row)))
    (λ _, None).

(** Lines 164-171: the raw current, open and previous-close values. *)
Definition raw_quote (data : list bar) : result (float * float * float) :=
  last_row ← getitem data (-1);
  let current_raw := Close last_row in
  let open_raw := Open last_row in
  prev_close_raw ←
    (if (1 <? Z.of_nat (length data))
     then (row ← getitem data (-2); Ok (Close row))
     else Ok open_raw);
  Ok (current_raw, open_raw, prev_close_raw).

(** Lines 173-179: pence detection for LSE tickers. *)
Definition pence_to_pounds (ticker_symbol : string)
    (raw : float * float * float) : result (float * float * float) :=
  let '(current_raw, open_raw, prev_close_raw) := raw in
  if endswith ticker_symbol ".L" && gt current_raw PENCE_THRESHOLD then
    current_raw ← truediv current_raw 100;
    open_raw ← truediv open_raw 100;
    prev_close_raw ← truediv prev_close_raw 100;
    Ok (current_raw, open_raw, prev_close_raw)
  else Ok raw.

(** Lines 181-218: prices in both currencies; [Ok None] is the
    [return None] of the missing exchange rate. *)
Definition both_currencies (native_currency : string)
    (gbp_usd_rate : option float) (raw : float * float * float)
    : result (option price_data) :=
  let '(current_raw, open_raw, prev_close_raw) := raw in
  if String.eqb native_currency "USD" then
    let price_usd := current_raw in
    let open_usd := open_raw in
    let prev_close_usd := prev_close_raw in
    match gbp_usd_rate with
    | None => Ok None
    | Some rate =>
        price_gbp ← truediv price_usd rate;
        open_gbp ← truediv open_usd rate;
        prev_close_gbp ← truediv prev_close_usd rate;
        Ok (Some (mkprice price_gbp open_gbp prev_close_gbp
                    (Some price_usd) (Some open_usd) (Some prev_close_usd)))
    end
  else
    let price_gbp := current_raw in
    let open_gbp := open_raw in
    let prev_close_gbp := prev_close_raw in
    match gbp_usd_rate with
    | Some rate =>
        Ok (Some (mkprice price_gbp open_gbp prev_close_gbp
                    (Some (price_gbp * rate)%float)
                    (Some (open_gbp * rate)%float)
                    (Some (prev_close_gbp * rate)%float)))
    | None =>
        Ok (Some (mkprice price_gbp open_gbp prev_close_gbp None None None))
    end.

(** [get_asset_price]: [None] on failure. *)
Definition get_asset_price (asset_key : string) (asset_config : asset_config)
    (gbp_usd_rate : option float) (yf : provider) : option price_data :=
  let ticker_symbol := ticker asset_config in
  let native_currency := native_currency asset_config in
  try_except
    (data ← yf ticker_symbol "2d";
     if empty data then Ok None
     else
       raw ← raw_quote data;
       raw ← pence_to_pounds ticker_symbol raw;
       both_currencies native_currency gbp_usd_rate raw)
    (λ _, None).

(** ** History store *)

(** One entry of [price_history.json]; prices are the floats that
    [cmd_summary] wrote, and a price may be JSON [null]. *)
Record entry : Type := mkentry {
  date : string;
  prices : gmap string (option float);
  gbp_usd_rate : option float;
}.

Record history : Type := mkhistory { entries : list entry }.

(** [load_history]: a missing file is an empty history. *)
Definition load_history (file : option history) : history :=
  match file with
  | None => mkhistory []
  | Some h => h
  end.

(** [save_history]: the history as written (and as left in memory). *)
Definition save_history (now : datetime) (h : history) : history :=
  let cutoff := minus_days now HISTORY_DAYS in
  let cutoff_str := strftime_ymd cutoff in
  mkhistory (List.filter (λ e, str_ge (date e) cutoff_str) (entries h)).

(** ** Trend calculator *)

(** [asset_key in e.get("prices", {}) and e["prices"][asset_key] is not None] *)
Definition has_price (asset_key : string) (e : entry) : bool :=
  match prices e !! asset_key with
  | Some (Some _) => true
  | _ => false
  end.

(** [e["prices"][asset_key]], read as a number. *)
Definition price_of (asset_key : string) (e : entry) : result float :=
  match prices e !! asset_key with
  | Some (Some p) => Ok p
  | Some None => Raise TypeError
  | None => Raise KeyError
  end.

(** Lines 275-278: [None] for a zero past value, else
    [((current - past) / past) * 100]. *)
Definition percentage_change (current past : float) : result (option float) :=
  if eq past 0 then Ok None
  else
    q ← truediv (current - past)%float past;
    Ok (Some (q * 100)%float).

(** [calculate_trend] *)
Definition calculate_trend (h : history) (asset_key : string) (days : Z)
    : result (option float) :=
  let relevant := List.filter (has_price asset_key) (entries h) in
  if Z.of_nat (length relevant) <? 2 then Ok None
  else
    let relevant := sort_desc date relevant in
    newest ← getitem relevant 0;
    current ← price_of asset_key newest;
    past ←
      (if Z.of_nat (length relevant) <=? days
       then (e ← getitem relevant (-1); price_of asset_key e)
       else (e ← getitem relevant days; price_of asset_key e));
    percentage_change current past.

(** The entries that [calculate_trend] looks at, and their order after the
    sort: the views in which its result is stated. *)
Definition relevant (h : history) (asset_key : string) : list entry :=
  List.filter (has_price asset_key) (entries h).

Definition newest_first (h : history) (asset_key : string) : list entry :=
  sort_desc date (relevant h asset_key).

(** The order in which [newest_first] lists its entries. *)
Definition newer_or_same {A} (key : A → string) (a b : A) : Prop :=
  str_ge (key a) (key b) = true.

(** The entry whose price [calculate_trend] takes as the past value. *)
Definition past_entry (h : history) (asset_key : string) (days : Z)
    : result entry :=
  let sorted := newest_first h asset_key in
  if Z.of_nat (length sorted) <=? days then getitem sorted (-1)
  else getitem sorted days.

(** ** Alert state *)

(** [alerts_state.json]: the key ["date"] may be absent or [null]. *)
Record alerts_state : Type := mkstate {
  state_date : option string;
  fired : list string;
}.

(** [load_alerts_state] *)
Definition load_alerts_state (file : option alerts_state) (now : datetime)
    : alerts_state :=
  match file with
  | None => mkstate None []
  | Some state =>
      let today := strftime_ymd now in
      if bool_decide (state_date state ≠ Some today) then mkstate (Some today) []
      else state
  end.

(** [save_alerts_state]: the state as written. *)
Definition save_alerts_state (state : alerts_state) (now : datetime)
    : alerts_state :=
  let today := strftime_ymd now in
  mkstate (Some today) (fired state).

(** ** Configuration *)

(** The parts of [config.json] that [cmd_watch] reads; a key that may be
    absent is an [option], and the numbers are read as floats. *)

Record price_alert : Type := mkprice_alert {
  above : option float;
  below : option float;
}.

Record intraday_alerts : Type := mkintraday {
  default_threshold_pct : option float;
  thresholds : option (gmap string float);
}.

Record config : Type := mkconfig {
  intraday_alerts_of : option intraday_alerts;
  price_alerts_of : option (gmap string price_alert);
}.

(** ** Daily summary *)

(** The lines of the summary message, before they are rendered as text. *)
Inductive line : Type :=
  | Title                                        (* "*Daily Investment Summary*" *)
  | DateLine (now : datetime)
  | Blank
  | Unavailable (name : string)                  (* "*name*: Data unavailable" *)
  | Header (emoji name : string)
  | PriceLine (gbp : float) (usd : option float) (unit_suffix : string)
  | ChangeLine (daily_change daily_change_pct : float)
  | TrendLine (trends : list (string * float))
  | RateLine (rate : float).

Record summary_state : Type := mksummary_state {
  lines : list line;
  day_prices : gmap string (option float);
}.

(** The body of the loop of [cmd_summary]. *)
Definition summary_asset (gbp_usd_rate : option float) (yf : provider)
    (h : history) (s : summary_state) (asset : string * asset_config)
    : result summary_state :=
  let '(asset_key, asset_config) := asset in
  match get_asset_price asset_key asset_config gbp_usd_rate yf with
  | None =>
      Ok (mksummary_state (lines s ++ [Unavailable (name asset_config); Blank])
            (day_prices s))
  | Some price_data =>
      let current_gbp := price_gbp price_data in
      let current_usd := price_usd price_data in
      let prev_close_gbp := prev_close_gbp price_data in
      let prices := <[asset_key := Some current_gbp]> (day_prices s) in
      let daily_change := (current_gbp - prev_close_gbp)%float in
      daily_change_pct ←
        (if ne prev_close_gbp 0
         then (q ← truediv daily_change prev_close_gbp; Ok (q * 100)%float)
         else Ok 0%float);
      let unit_suffix :=
        if String.eqb (unit asset_config) "" then ""
        else " " +:+ unit asset_config in
      let lines := lines s ++ [Header (emoji asset_config) (name asset_config)] in
      let price_line :=
        if String.eqb (native_currency asset_config) "USD"
        then PriceLine current_gbp current_usd unit_suffix
        else match current_usd with
             | Some usd => PriceLine current_gbp (Some usd) unit_suffix
             | None => PriceLine current_gbp None unit_suffix
             end in
      let lines := lines ++ [price_line] in
      let lines := lines ++ [ChangeLine daily_change daily_change_pct] in
      weekly ← calculate_trend h asset_key 5;
      monthly ← calculate_trend h asset_key 22;
      let trends :=
        match weekly with Some w => [("5d", w)] | None => [] end ++
        match monthly with Some m => [("22d", m)] | None => [] end in
      let lines :=
        if empty trends then lines else lines ++ [TrendLine trends] in
      Ok (mksummary_state (lines ++ [Blank]) prices)
  end.

Record summary_result : Type := mksummary_result {
  history_file : option history;    (* the store after the command *)
  summary_message : list line;
}.

(** [cmd_summary]: [now] is the clock read at the start of the command,
    [now_save] the clock read inside [save_history]. *)
Definition cmd_summary (yf : provider) (file : option history)
    (now now_save : datetime) : result summary_result :=
  let gbp_usd_rate := get_gbp_usd_rate yf in
  let h := load_history file in
  let today := strftime_ymd now in
  s ← for_each (summary_asset gbp_usd_rate yf h) ASSETS
        (mksummary_state [Title; DateLine now; Blank] ∅);
  let lines :=
    match gbp_usd_rate with
    | Some rate => if ne rate 0 then lines s ++ [RateLine rate] else lines s
    | None => lines s
    end in
  let file :=
    if negb (size (day_prices s) =? 0)%nat then
      let kept := List.filter (λ e, str_ne (date e) today) (entries h) in
      let h := mkhistory (kept ++ [mkentry today (day_prices s) gbp_usd_rate]) in
      Some (save_history now_save h)
    else file in
  Ok (mksummary_result file lines).

(** ** Intraday watch *)

(** The alert texts queued in [alerts_to_send], before rendering. *)
Inductive alert : Type :=
  | IntradayAlert (spike : bool) (name : string)
      (current open_price change_pct threshold : float)
  | AboveAlert (name : string) (above current : float)
  | BelowAlert (name : string) (below current : float).

(** The mutable variables of [cmd_watch]: the loaded [state], the queue
    [alerts_to_send] and the keys written by
    [logger.info(f"Alert triggered: {alert_key}")]. *)
Record watch_state : Type := mkwatch {
  state : alerts_state;
  alerts_to_send : list alert;
  triggered : list string;
}.

(** [f"intraday_{asset_key}_{'+' if change_pct > 0 else '-'}"] *)
Definition intraday_key (asset_key : string) (change_pct : float) : string :=
  "intraday_" +:+ asset_key +:+ "_" +:+ (if gt change_pct 0 then "+" else "-").

Definition above_key (asset_key : string) : string :=
  "price_above_" +:+ asset_key.

Definition below_key (asset_key : string) : string :=
  "price_below_" +:+ asset_key.

(** The guarded block that follows each alert condition (lines 464-473,
    481-487 and 492-498): queue the text, record the key, log it. *)
Definition fire_once (alert_key : string) (text : alert) (w : watch_state)
    : watch_state :=
  if bool_decide (alert_key ∉ fired (state w)) then
    mkwatch (mkstate (state_date (state w)) (fired (state w) ++ [alert_key]))
            (alerts_to_send w ++ [text])
            (triggered w ++ [alert_key])
  else w.

(** [((current - open_price) / open_price) * 100] *)
Definition change_pct_of (current open_price : float) : result float :=
  q ← truediv (current - open_price)%float open_price;
  Ok (q * 100)%float.

(** The body of the loop of [cmd_watch]. *)
Definition watch_asset (default_threshold : float)
    (thresholds : gmap string float) (price_alerts : gmap string price_alert)
    (gbp_usd_rate : option float) (yf : provider)
    (w : watch_state) (asset : string * asset_config) : result watch_state :=
  let '(asset_key, asset_config) := asset in
  match get_asset_price asset_key asset_config gbp_usd_rate yf with
  | None => Ok w
  | Some price_data =>
      let current := price_gbp price_data in
      let open_price := open_gbp price_data in
      let threshold := default default_threshold (thresholds !! asset_key) in
      w ← (if ne open_price 0 then
             change_pct ← change_pct_of current open_price;
             if ge (abs change_pct) threshold then
               Ok (fire_once (intraday_key asset_key change_pct)
                     (IntradayAlert (gt change_pct 0) (name asset_config)
                        current open_price change_pct threshold) w)
             else Ok w
           else Ok w);
      let asset_price_alerts :=
        default (mkprice_alert None None) (price_alerts !! asset_key) in
      let w :=
        match above asset_price_alerts with
        | Some above =>
            if ge current above then
              fire_once (above_key asset_key)
                (AboveAlert (name asset_config) above current) w
            else w
        | None => w
        end in
      let w :=
        match below asset_price_alerts with
        | Some below =>
            if le current below then
              fire_once (below_key asset_key)
                (BelowAlert (name asset_config) below current) w
            else w
        | None => w
        end in
      Ok w
  end.

Record watch_result : Type := mkwatch_result {
  alerts_file : alerts_state;          (* the store after the command *)
  watch_message : option (list alert); (* the message sent, if any *)
  watch_log : list string;             (* the keys logged as triggered *)
}.

(** The loop of [cmd_watch], with the thresholds read from [config]. *)
Definition watch_loop (config : config) (gbp_usd_rate : option float)
    (yf : provider) (assets : list (string * asset_config)) (w : watch_state)
    : result watch_state :=
  let intraday_config :=
    default (mkintraday None None) (intraday_alerts_of config) in
  let default_threshold :=
    default 2%float (default_threshold_pct intraday_config) in
  let thresholds := default ∅ (thresholds intraday_config) in
  let price_alerts := default ∅ (price_alerts_of config) in
  for_each (watch_asset default_threshold thresholds price_alerts
              gbp_usd_rate yf) assets w.

(** [cmd_watch]: [now_load] and [now_save] are the clock readings of
    [load_alerts_state] and [save_alerts_state]. *)
Definition cmd_watch (config : config) (yf : provider)
    (file : option alerts_state) (now_load now_save : datetime)
    : result watch_result :=
  let loaded := load_alerts_state file now_load in
  let gbp_usd_rate := get_gbp_usd_rate yf in
  w ← watch_loop config gbp_usd_rate yf ASSETS (mkwatch loaded [] []);
  let saved := save_alerts_state (state w) now_save in
  Ok (mkwatch_result saved
        (if empty (alerts_to_send w) then None else Some (alerts_to_send w))
        (triggered w)).

(** The watch cycles of one calendar day: the scheduler runs [cmd_watch]
    once per cycle, each with its own market snapshot; the file written by
    one cycle is the file read by the next, and a cycle that raises writes
    nothing. *)
Fixpoint watch_cycles (config : config) (today : datetime)
    (cycles : list provider) (file : option alerts_state)
    : list (result watch_result) :=
  match cycles with
  | [] => []
  | yf :: rest =>
      let r := cmd_watch config yf file today today in
      let file' :=
        match r with
        | Ok res => Some (alerts_file res)
        | Raise _ => file
        end in
      r :: watch_cycles config today rest file'
  end.

(** All keys logged as triggered over a run of cycles, in order. *)
Definition keys_triggered (rs : list (result watch_result)) : list string :=
  concat (List.map (λ r, match r with Ok res => watch_log res | Raise _ => [] end) rs).

(** *** Views of a watch cycle, in which its properties are stated *)

(** [thresholds.get(asset_key, default_threshold)], from [config]. *)
Definition threshold_for (config : config) (asset_key : string) : float :=
  let intraday_config :=
    default (mkintraday None None) (intraday_alerts_of config) in
  default (default 2%float (default_threshold_pct intraday_config))
          ((default ∅ (thresholds intraday_config)) !! asset_key).

(** The intraday change of an instrument when it meets the threshold
    (lines 448-461): the price was obtained, the open is not zero and
    [abs(change_pct) >= threshold]. *)
Definition intraday_move (config : config) (yf : provider)
    (asset : string * asset_config) : option float :=
  let '(asset_key, asset_config) := asset in
  match get_asset_price asset_key asset_config (get_gbp_usd_rate yf) yf with
  | None => None
  | Some price_data =>
      if ne (open_gbp price_data) 0 then
        match change_pct_of (price_gbp price_data) (open_gbp price_data) with
        | Ok change_pct =>
            if ge (abs change_pct) (threshold_for config asset_key)
            then Some change_pct else None
        | Raise _ => None
        end
      else None
  end.

(** The four alert keys of one instrument. *)
Definition alert_keys (asset_key : string) : list string :=
  [ "intraday_" +:+ asset_key +:+ "_+"; "intraday_" +:+ asset_key +:+ "_-";
    above_key asset_key; below_key asset_key ].

(** [w'] is [w] after some alerts fired: each new key was not fired before,
    is recorded once, logged, and has its text queued; [allowed] bounds the
    new keys. *)
Definition grows (allowed : string → Prop) (w w' : watch_state) : Prop :=
  ∃ new texts,
    state w' = mkstate (state_date (state w)) (fired (state w) ++ new) ∧
    alerts_to_send w' = alerts_to_send w ++ texts ∧
    triggered w' = triggered w ++ new ∧
    length texts = length new ∧
    NoDup new ∧
    (∀ key, key ∈ new → (key ∉ fired (state w)) ∧ allowed key).

(** [price_alerts.get(asset_key, {})], from [config]. *)
Definition price_alerts_for (config : config) (asset_key : string)
    : price_alert :=
  default (mkprice_alert None None)
          ((default ∅ (price_alerts_of config)) !! asset_key).

(** The alert keys whose condition holds for an instrument in one market
    snapshot (lines 448-498): its intraday move meets the threshold, its
    price is at or above the configured [above], at or below the configured
    [below]. *)
Definition due_keys (config : config) (yf : provider)
    (asset : string * asset_config) : list string :=
  let '(asset_key, asset_config) := asset in
  match get_asset_price asset_key asset_config (get_gbp_usd_rate yf) yf with
  | None => []
  | Some price_data =>
      let current := price_gbp price_data in
      match intraday_move config yf asset with
      | Some change_pct => [intraday_key asset_key change_pct]
      | None => []
      end ++
      match above (price_alerts_for config asset_key) with
      | Some above => if ge current above then [above_key asset_key] else []
      | None => []
      end ++
      match below (price_alerts_for config asset_key) with
      | Some below => if le current below then [below_key asset_key] else []
      | None => []
      end
  end.

(** *** Views of the summary message *)

(** The line that opens an instrument's block: its header, or the
    data-unavailable line. *)
Definition is_heading (l : line) : bool :=
  match l with
  | Unavailable _ | Header _ _ => true
  | _ => false
  end.

Definition is_rate_line (l : line) : bool :=
  match l with
  | RateLine _ => true
  | _ => false
  end.

(** The heading that [cmd_summary] gives an instrument. *)
Definition heading_of (gbp_usd_rate : option float) (yf : provider)
    (asset : string * asset_config) : line :=
  match get_asset_price asset.1 asset.2 gbp_usd_rate yf with
  | None => Unavailable (name asset.2)
  | Some _ => Header (emoji asset.2) (name asset.2)
  end.

(** * Properties *)

(** ** Python primitives *)

Section py_facts.
Context {A : Type}.
Implicit Types (l : list A) (x : A).

Lemma getitem_nonneg l (i : Z) :
  0 ≤ i →
  getitem l i = match l !! Z.to_nat i with
                | Some x => Ok x
                | None => Raise IndexError
                end.
Proof.
  intros Hi. unfold getitem.
  destruct (Z.ltb_spec i 0) as [|_]; [lia|].
  destruct (Z.ltb_spec i 0) as [|_]; [lia|]. simpl.
  destruct (Z.leb_spec (Z.of_nat (length l)) i) as [Hge|]; [|done].
  rewrite lookup_ge_None_2; [done|lia].
Qed.

Lemma getitem_last l x : last l = Some x → getitem l (-1) = Ok x.
Proof.
  intros H. unfold getitem. simpl.
  assert (length l ≠ 0%nat) by (destruct l; [done|simpl; lia]).
  destruct (Z.ltb_spec (-1 + Z.of_nat (length l)) 0); [lia|].
  destruct (Z.leb_spec (Z.of_nat (length l)) (-1 + Z.of_nat (length l)));
    [lia|]. simpl.
  replace (Z.to_nat (-1 + Z.of_nat (length l))) with (pred (length l)) by lia.
  by rewrite <- last_lookup, H.
Qed.

Lemma getitem_raises l (i : Z) (e : exn) :
  getitem l i = Raise e → e = IndexError.
Proof.
  unfold getitem. repeat case_match; congruence.
Qed.

Lemma for_each_app {S} (body : S → A → result S) l1 l2 (s : S) :
  for_each body (l1 ++ l2) s = (s' ← for_each body l1 s; for_each body l2 s').
Proof.
  revert s. induction l1 as [|x l1 IH]; intros s; simpl; [done|].
  destruct (body s x); simpl; [apply IH|done].
Qed.

End py_facts.

(** *** Floats *)

Lemma SFcompare_antisym a b c :
  SFcompare a b = Some c → SFcompare b a = Some (CompOpp c).
Proof.
  destruct a as [sa|sa| |sa ma ea], b as [sb|sb| |sb mb eb]; simpl;
    try (destruct sa); try (destruct sb); simpl; try congruence;
    try (intros [= <-]; reflexivity).
  all: rewrite (Z.compare_antisym ea eb); destruct (ea ?= eb)%Z eqn:E; simpl;
       try (intros [= <-]; reflexivity).
  all: change (PosDef.Pos.compare_cont Eq mb ma) with (Pos.compare mb ma);
       change (PosDef.Pos.compare_cont Eq ma mb) with (Pos.compare ma mb);
       rewrite (Pos.compare_antisym ma mb);
       destruct (ma ?= mb)%positive; simpl; intros [= <-]; reflexivity.
Qed.

(** [a <= b] excludes [a > b]. *)
Lemma le_not_gt a b : le a b = true → gt a b = false.
Proof.
  unfold le, gt. rewrite leb_spec, ltb_spec. unfold SFleb, SFltb.
  destruct (SFcompare (Prim2SF a) (Prim2SF b)) as [c|] eqn:E; [|discriminate].
  rewrite (SFcompare_antisym _ _ _ E). destruct c; simpl; congruence.
Qed.

Lemma truediv_100 a : truediv a 100 = Ok (a / 100)%float.
Proof. reflexivity. Qed.

Lemma truediv_nonzero a b : eq b 0 = false → truediv a b = Ok (a / b)%float.
Proof. unfold truediv, eq. by intros ->. Qed.

(** *** Strings *)

Lemma ascii_compare_refl c : Ascii.compare c c = Eq.
Proof. unfold Ascii.compare. apply N.compare_refl. Qed.

Lemma ascii_compare_lt_trans a b c :
  Ascii.compare a b = Lt → Ascii.compare b c = Lt → Ascii.compare a c = Lt.
Proof.
  unfold Ascii.compare. rewrite !N.compare_lt_iff. lia.
Qed.

Lemma string_compare_refl s : String.compare s s = Eq.
Proof.
  induction s as [|c s IH]; simpl; [done|]. by rewrite ascii_compare_refl.
Qed.

Lemma string_compare_lt_trans a b c :
  String.compare a b = Lt → String.compare b c = Lt → String.compare a c = Lt.
Proof.
  revert b c. induction a as [|x a IH]; intros [|y b] [|z c]; simpl; try done.
  destruct (Ascii.compare x y) eqn:Exy; try done;
    destruct (Ascii.compare y z) eqn:Eyz; try done; intros Hab Hbc.
  - apply Ascii.compare_eq_iff in Exy, Eyz. subst.
    rewrite ascii_compare_refl. eauto.
  - apply Ascii.compare_eq_iff in Exy. subst. by rewrite Eyz.
  - apply Ascii.compare_eq_iff in Eyz. subst. by rewrite Exy.
  - by rewrite (ascii_compare_lt_trans _ _ _ Exy Eyz).
Qed.

Lemma string_leb_refl s : String.leb s s = true.
Proof. unfold String.leb. by rewrite string_compare_refl. Qed.

Lemma string_leb_ltb a b : String.leb a b = negb (String.ltb b a).
Proof.
  unfold String.leb, String.ltb. rewrite (String.compare_antisym a b).
  by destruct (String.compare b a).
Qed.

Lemma string_leb_trans a b c :
  String.leb a b = true → String.leb b c = true → String.leb a c = true.
Proof.
  unfold String.leb.
  destruct (String.compare a b) eqn:Eab; try done;
    destruct (String.compare b c) eqn:Ebc; try done; intros _ _.
  - apply String.compare_eq_iff in Eab, Ebc. subst. by rewrite string_compare_refl.
  - apply String.compare_eq_iff in Eab. subst. by rewrite Ebc.
  - apply String.compare_eq_iff in Ebc. subst. by rewrite Eab.
  - by rewrite (string_compare_lt_trans _ _ _ Eab Ebc).
Qed.

Lemma string_append_inj_l s a b : s +:+ a = s +:+ b → a = b.
Proof. induction s as [|c s IH]; simpl; [done|]. intros [= H]. auto. Qed.

(** *** The stable descending sort *)

Section sort_facts.
Context {A : Type} (key : A → string).
Implicit Types (l : list A) (x : A).

Lemma insert_desc_perm x l : insert_desc key x l ≡ₚ x :: l.
Proof.
  induction l as [|y l IH]; simpl; [done|].
  destruct (str_lt (key x) (key y)); [|done].
  rewrite IH. apply Permutation_swap.
Qed.

Lemma sort_desc_perm l : sort_desc key l ≡ₚ l.
Proof.
  induction l as [|x l IH]; simpl; [done|].
  by rewrite insert_desc_perm, IH.
Qed.

Lemma sort_desc_length l : length (sort_desc key l) = length l.
Proof. by rewrite sort_desc_perm. Qed.

Lemma sort_desc_elem_of l x : x ∈ sort_desc key l ↔ x ∈ l.
Proof. by rewrite sort_desc_perm. Qed.

Lemma insert_desc_sorted x l :
  StronglySorted (newer_or_same key) l →
  StronglySorted (newer_or_same key) (insert_desc key x l).
Proof.
  induction l as [|y l IH]; simpl; intros Hs.
  - repeat constructor.
  - apply StronglySorted_cons in Hs as [Hy Hl].
    destruct (str_lt (key x) (key y)) eqn:E.
    + apply StronglySorted_cons. split; [|by apply IH].
      rewrite insert_desc_perm. constructor; [|done].
      unfold newer_or_same, str_ge, str_lt in *.
      unfold String.ltb in E. unfold String.leb.
      by destruct (String.compare (key x) (key y)).
    + assert (newer_or_same key x y) as Hxy.
      { unfold newer_or_same, str_ge, str_lt in *.
        by rewrite string_leb_ltb, E. }
      apply StronglySorted_cons. split.
      * constructor; [done|].
        eapply Forall_impl; [exact Hy|]. intros z Hz.
        unfold newer_or_same, str_ge in *. by eapply string_leb_trans.
      * by apply StronglySorted_cons.
Qed.

Lemma sort_desc_sorted l : StronglySorted (newer_or_same key) (sort_desc key l).
Proof.
  induction l as [|x l IH]; simpl; [constructor|].
  by apply insert_desc_sorted.
Qed.

(** The sort is stable: the elements of one key keep their order. *)
Lemma insert_desc_same_key x l k :
  List.filter (λ y, String.eqb (key y) k) (insert_desc key x l) =
    List.filter (λ y, String.eqb (key y) k) (x :: l).
Proof.
  induction l as [|y l IH]; [done|]. cbn [insert_desc].
  destruct (str_lt (key x) (key y)) eqn:E; [|done].
  cbn [List.filter] in *. rewrite IH.
  destruct (String.eqb_spec (key x) k) as [Hx|]; [|done].
  destruct (String.eqb_spec (key y) k) as [Hy|]; [|done].
  rewrite Hx, Hy in E. unfold str_lt, String.ltb in E.
  by rewrite string_compare_refl in E.
Qed.

Lemma sort_desc_stable l k :
  List.filter (λ y, String.eqb (key y) k) (sort_desc key l) =
    List.filter (λ y, String.eqb (key y) k) l.
Proof.
  induction l as [|x l IH]; [done|]. cbn [sort_desc].
  rewrite insert_desc_same_key. cbn [List.filter]. by rewrite IH.
Qed.

(** The first element of a descending list is a newest one, the last an
    oldest one. *)
Lemma sorted_head_newest l x y :
  StronglySorted (newer_or_same key) l → head l = Some x → y ∈ l →
  newer_or_same key x y.
Proof.
  destruct l as [|z l]; [done|]. intros Hs [= ->] Hy.
  apply StronglySorted_cons in Hs as [Hx _].
  apply elem_of_cons in Hy as [->|Hy].
  - unfold newer_or_same, str_ge. apply string_leb_refl.
  - by eapply Forall_forall in Hx.
Qed.

Lemma sorted_last_oldest l x y :
  StronglySorted (newer_or_same key) l → last l = Some x → y ∈ l →
  newer_or_same key y x.
Proof.
  induction l as [|z l IH]; [done|]. intros Hs Hl Hy.
  apply StronglySorted_cons in Hs as [Hz Hs].
  destruct l as [|z' l].
  - simpl in Hl. injection Hl as ->. apply list_elem_of_singleton in Hy as ->.
    unfold newer_or_same, str_ge. apply string_leb_refl.
  - change (last (z :: z' :: l)) with (last (z' :: l)) in Hl.
    apply elem_of_cons in Hy as [->|Hy]; [|by apply IH].
    eapply Forall_forall in Hz; [exact Hz|]. by eapply last_Some_elem_of.
Qed.
End sort_facts.

(** ** Quote normalizer *)

Lemma raw_quote_last data b :
  last data = Some b → ∃ p, raw_quote data = Ok (Close b, Open b, p).
Proof.
  intros Hl. unfold raw_quote. rewrite (getitem_last _ _ Hl). simpl.
  destruct (Z.ltb_spec 1 (Z.of_nat (length data))) as [Hn|Hn]; simpl; [|eauto].
  unfold getitem. simpl.
  destruct (Z.ltb_spec (-2 + Z.of_nat (length data)) 0); [lia|].
  destruct (Z.leb_spec (Z.of_nat (length data)) (-2 + Z.of_nat (length data)));
    [lia|]. simpl.
  destruct (lookup_lt_is_Some_2 data (Z.to_nat (-2 + Z.of_nat (length data))))
    as [r ->]; [lia|]. simpl. eauto.
Qed.

Lemma raw_quote_nonempty data :
  data ≠ [] → ∃ raw, raw_quote data = Ok raw.
Proof.
  intros Hd. destruct (last data) as [b|] eqn:E.
  - destruct (raw_quote_last _ _ E) as [p Hp]. eauto.
  - apply last_None in E. done.
Qed.

(** The three stages of [get_asset_price] on an answer with rows. *)
Lemma get_asset_price_stages k cfg rate (yf : provider) data raw :
  yf (ticker cfg) "2d" = Ok data →
  raw_quote data = Ok raw →
  get_asset_price k cfg rate yf =
    try_except (raw' ← pence_to_pounds (ticker cfg) raw;
                both_currencies (native_currency cfg) rate raw')
               (λ _, None).
Proof.
  intros Hyf Hraw. unfold get_asset_price. rewrite Hyf. simpl.
  destruct data as [|b data]; [done|]. simpl.
  change (mbind ?f ?m) with (Py.bind m f). by rewrite Hraw.
Qed.

(** C2. On a market that may quote in pence (a ticker ending in [.L]), a raw
    current value above 100 makes the normalizer divide the current, open
    and previous-close values by 100, all three, before the currency step;
    a raw current value of at most 100 leaves all three as they are. *)
Theorem pence_detection_all_three k cfg rate (yf : provider) data c o p :
  endswith (ticker cfg) ".L" = true →
  yf (ticker cfg) "2d" = Ok data →
  raw_quote data = Ok (c, o, p) →
  (gt c PENCE_THRESHOLD = true →
     get_asset_price k cfg rate yf =
       try_except
         (both_currencies (native_currency cfg) rate
            (c / 100, o / 100, p / 100)%float)
         (λ _, None))
  ∧ (le c PENCE_THRESHOLD = true →
     get_asset_price k cfg rate yf =
       try_except (both_currencies (native_currency cfg) rate (c, o, p))
                  (λ _, None)).
Proof.
  intros HL Hyf Hraw.
  rewrite (get_asset_price_stages _ _ _ _ _ _ Hyf Hraw).
  unfold pence_to_pounds. rewrite HL. split.
  - intros ->. by rewrite !truediv_100.
  - intros Hle. by rewrite (le_not_gt _ _ Hle).
Qed.

Lemma pence_detection_all_three_witness :
  let cfg := mkasset "ISWD.L" "ISWD" "" "GBP" "" in
  let yf : provider := λ _ _, Ok [mkbar 640 645; mkbar 648 650]%float in
  get_asset_price "iswd" cfg (Some 1.25%float) yf =
    Some (mkprice 6.5 (648 / 100) (645 / 100)
            (Some 8.125%float) (Some (648 / 100 * 1.25)%float)
            (Some (645 / 100 * 1.25)%float)).
Proof.
  intros cfg yf.
  refine (proj1 (pence_detection_all_three "iswd" cfg (Some 1.25%float) yf
            [mkbar 640 645; mkbar 648 650]%float 650 648 645 _ _ _) _);
    reflexivity.
Defined.

(** C3. With no exchange rate, a USD-native instrument yields no canonical
    price at all, while a GBP-native instrument whose quote arrived still
    yields the GBP price, open and previous close, with the USD fields
    absent. *)
Theorem no_rate_usd_fails_gbp_survives :
  (∀ k cfg (yf : provider),
     native_currency cfg = "USD" → get_asset_price k cfg None yf = None)
  ∧ (∀ k cfg (yf : provider) data,
       native_currency cfg = "GBP" →
       yf (ticker cfg) "2d" = Ok data → data ≠ [] →
       ∃ raw c o p,
         raw_quote data = Ok raw ∧
         pence_to_pounds (ticker cfg) raw = Ok (c, o, p) ∧
         get_asset_price k cfg None yf = Some (mkprice c o p None None None)).
Proof.
  split.
  - intros k cfg yf Hn. unfold get_asset_price.
    destruct (yf (ticker cfg) "2d") as [data|e]; simpl; [|done].
    destruct (empty data); [done|].
    change (mbind ?f ?m) with (Py.bind m f).
    destruct (raw_quote data) as [raw|]; simpl; [|done].
    destruct (pence_to_pounds (ticker cfg) raw) as [[[c o] p]|]; simpl; [|done].
    by rewrite Hn.
  - intros k cfg yf data Hn Hyf Hd.
    destruct (raw_quote_nonempty data Hd) as [[[c o] p] Hraw].
    rewrite (get_asset_price_stages _ _ _ _ _ _ Hyf Hraw).
    exists (c, o, p).
    assert (∃ c' o' p', pence_to_pounds (ticker cfg) (c, o, p) = Ok (c', o', p'))
      as (c' & o' & p' & Hp).
    { unfold pence_to_pounds.
      destruct (endswith (ticker cfg) ".L" && gt c PENCE_THRESHOLD);
        [rewrite !truediv_100|]; simpl; eauto. }
    exists c', o', p'. rewrite Hp. simpl. by rewrite Hn.
Qed.

Lemma no_rate_usd_fails_gbp_survives_witness :
  let gold := mkasset "GC=F" "Gold" "" "USD" "per oz" in
  let iswd := mkasset "ISWD.L" "ISWD" "" "GBP" "" in
  let yf : provider := λ _ _, Ok [mkbar 640 645; mkbar 648 650]%float in
  get_asset_price "gold_gbp" gold None yf = None
  ∧ ∃ raw c o p,
      raw_quote [mkbar 640 645; mkbar 648 650]%float = Ok raw ∧
      pence_to_pounds "ISWD.L" raw = Ok (c, o, p) ∧
      get_asset_price "iswd" iswd None yf = Some (mkprice c o p None None None).
Proof.
  intros gold iswd yf. split.
  - apply (proj1 no_rate_usd_fails_gbp_survives). reflexivity.
  - apply (proj2 no_rate_usd_fails_gbp_survives "iswd" iswd yf
             [mkbar 640 645; mkbar 648 650]%float); [reflexivity..|discriminate].
Defined.

(** ** Calendar dates and their [%Y-%m-%d] strings *)

Lemma string_compare_app a a' b b' :
  String.length a = String.length a' →
  String.compare (a +:+ b) (a' +:+ b') =
    match String.compare a a' with
    | Eq => String.compare b b'
    | c => c
    end.
Proof.
  revert a'. induction a as [|x a IH]; intros [|y a']; simpl; try done.
  intros [= Hlen]. rewrite (IH _ Hlen).
  by destruct (Ascii.compare x y).
Qed.

Lemma string_length_app a b :
  String.length (a +:+ b) = (String.length a + String.length b)%nat.
Proof. induction a as [|x a IH]; simpl; [done|]. by rewrite IH. Qed.

Lemma digit_compare a b :
  0 ≤ a ≤ 9 → 0 ≤ b ≤ 9 → Ascii.compare (digit a) (digit b) = (a ?= b).
Proof.
  intros Ha Hb. unfold Ascii.compare, digit.
  rewrite !N_ascii_embedding by lia.
  destruct (N.compare_spec (48 + Z.to_N a) (48 + Z.to_N b)),
    (Z.compare_spec a b); try done; lia.
Qed.

Lemma zero_padded_length k n : String.length (zero_padded k n) = k.
Proof. revert n. induction k as [|k IH]; intros n; simpl; [done|]. by rewrite IH. Qed.

Lemma zero_padded_compare k a b :
  0 ≤ a < 10 ^ Z.of_nat k → 0 ≤ b < 10 ^ Z.of_nat k →
  String.compare (zero_padded k a) (zero_padded k b) = (a ?= b).
Proof.
  revert a b. induction k as [|k IH]; intros a b Ha Hb.
  - simpl in *. assert (a = 0) as -> by lia. assert (b = 0) as -> by lia. done.
  - rewrite Nat2Z.inj_succ, Z.pow_succ_r in Ha, Hb by lia.
    set (P := 10 ^ Z.of_nat k) in *.
    assert (0 < P) as HP by (apply Z.pow_pos_nonneg; lia).
    pose proof (Z.div_mod a P ltac:(lia)) as Ea.
    pose proof (Z.div_mod b P ltac:(lia)) as Eb.
    pose proof (Z.mod_pos_bound a P HP) as Ra.
    pose proof (Z.mod_pos_bound b P HP) as Rb.
    assert (0 ≤ a / P ≤ 9) as Qa
      by (split; [apply Z.div_pos; lia|apply Z.lt_succ_r, Z.div_lt_upper_bound; lia]).
    assert (0 ≤ b / P ≤ 9) as Qb
      by (split; [apply Z.div_pos; lia|apply Z.lt_succ_r, Z.div_lt_upper_bound; lia]).
    cbn [zero_padded String.compare]. fold P.
    rewrite (digit_compare _ _ Qa Qb), (IH _ _ Ra Rb).
    destruct (Z.compare_spec (a / P) (b / P)) as [Hq|Hq|Hq].
    + rewrite Hq in Ea.
      destruct (Z.compare_spec (a mod P) (b mod P)); symmetry;
        [apply Z.compare_eq_iff|apply Z.compare_lt_iff|apply Z.compare_gt_iff];
        lia.
    + symmetry. apply Z.compare_lt_iff. nia.
    + symmetry. apply Z.compare_gt_iff. nia.
Qed.

(** The order of [%Y-%m-%d] strings is the order of year, month and day. *)
Lemma strftime_compare d1 d2 :
  fits d1 → fits d2 →
  String.compare (strftime_ymd d1) (strftime_ymd d2) =
    match year d1 ?= year d2 with
    | Eq => match month d1 ?= month d2 with
            | Eq => day d1 ?= day d2
            | c => c
            end
    | c => c
    end.
Proof.
  intros (Hy1 & Hm1 & Hd1) (Hy2 & Hm2 & Hd2). unfold strftime_ymd.
  rewrite string_compare_app by (by rewrite !zero_padded_length).
  rewrite zero_padded_compare by (simpl; lia).
  destruct (year d1 ?= year d2); try done.
  rewrite (string_compare_app "-" "-") by done.
  change (String.compare "-" "-") with Eq. cbv iota.
  rewrite string_compare_app by (by rewrite !zero_padded_length).
  rewrite zero_padded_compare by (simpl; lia).
  destruct (month d1 ?= month d2); try done.
  rewrite (string_compare_app "-" "-") by done.
  change (String.compare "-" "-") with Eq. cbv iota.
  apply zero_padded_compare; simpl; lia.
Qed.

(** *** Ordinals: one day back is one ordinal less *)

Ltac month_cases m :=
  let H := fresh in
  assert (m = 1 ∨ m = 2 ∨ m = 3 ∨ m = 4 ∨ m = 5 ∨ m = 6 ∨ m = 7 ∨ m = 8 ∨
          m = 9 ∨ m = 10 ∨ m = 11 ∨ m = 12) as H by lia;
  repeat (destruct H as [H|H]; [subst m|]); [..|subst m].

Lemma is_leap_cases y :
  (is_leap y = true ∧ y mod 4 = 0 ∧ (y mod 100 ≠ 0 ∨ y mod 400 = 0)) ∨
  (is_leap y = false ∧ (y mod 4 ≠ 0 ∨ (y mod 100 = 0 ∧ y mod 400 ≠ 0))).
Proof.
  unfold is_leap.
  destruct (Z.eqb_spec (y mod 4) 0), (Z.eqb_spec (y mod 100) 0),
    (Z.eqb_spec (y mod 400) 0); simpl; intuition lia.
Qed.

Lemma days_before_year_succ y :
  days_before_year (y + 1) =
    days_before_year y + (if is_leap y then 366 else 365).
Proof.
  unfold days_before_year.
  destruct (is_leap_cases y) as [(-> & H)|(-> & H)];
    replace (y + 1 - 1) with y by lia; Z.div_mod_to_equations; lia.
Qed.

Lemma days_before_year_mono y1 y2 :
  y1 ≤ y2 → days_before_year y1 ≤ days_before_year y2.
Proof.
  intros H. unfold days_before_year. Z.div_mod_to_equations. lia.
Qed.

Lemma days_in_month_bounds y m : 28 ≤ days_in_month y m ≤ 31.
Proof.
  unfold days_in_month. repeat case_match; lia.
Qed.

Lemma days_before_month_succ y m :
  1 ≤ m < 12 →
  days_before_month y (m + 1) = days_before_month y m + days_in_month y m.
Proof.
  intros Hm. month_cases m; try lia;
    unfold days_before_month, days_in_month; simpl;
    destruct (is_leap y); simpl; lia.
Qed.

Lemma days_before_month_bounds y m :
  1 ≤ m ≤ 12 →
  0 ≤ days_before_month y m ∧
  days_before_month y m + days_in_month y m ≤ (if is_leap y then 366 else 365).
Proof.
  intros Hm. month_cases m;
    unfold days_before_month, days_in_month; simpl;
    destruct (is_leap y); simpl; lia.
Qed.

Lemma days_before_month_mono y m1 m2 :
  1 ≤ m1 → m1 < m2 → m2 ≤ 12 →
  days_before_month y m1 + days_in_month y m1 ≤ days_before_month y m2.
Proof.
  intros H1 H12 H2. month_cases m1; try lia; month_cases m2; try lia;
    unfold days_before_month, days_in_month; simpl;
    destruct (is_leap y); simpl; lia.
Qed.

Lemma prev_day_valid_md d : valid_md d → valid_md (prev_day d).
Proof.
  destruct d as [y m dd]. unfold valid_md, prev_day. simpl. intros [Hm Hd].
  destruct (Z.ltb_spec 1 dd); simpl; [lia|].
  destruct (Z.ltb_spec 1 m); simpl.
  - pose proof (days_in_month_bounds y (m - 1)). lia.
  - unfold days_in_month. simpl. lia.
Qed.

Lemma toordinal_prev_day d :
  valid_md d → toordinal (prev_day d) = toordinal d - 1.
Proof.
  destruct d as [y m dd]. unfold valid_md, prev_day, toordinal. simpl.
  intros [Hm Hd].
  destruct (Z.ltb_spec 1 dd); simpl; [lia|].
  destruct (Z.ltb_spec 1 m); simpl.
  - pose proof (days_before_month_succ y (m - 1) ltac:(lia)) as E.
    replace (m - 1 + 1) with m in E by lia. lia.
  - assert (m = 1) as -> by lia. assert (dd = 1) as -> by lia.
    pose proof (days_before_year_succ (y - 1)) as E.
    replace (y - 1 + 1) with y in E by lia.
    unfold days_before_month. simpl.
    destruct (is_leap (y - 1)); simpl; lia.
Qed.

Lemma minus_days_spec d n :
  valid_md d →
  valid_md (minus_days d n) ∧
  toordinal (minus_days d n) = toordinal d - Z.of_nat n.
Proof.
  intros Hd. induction n as [|n [IHv IHo]]; simpl; [split; [done|lia]|].
  split; [by apply prev_day_valid_md|].
  rewrite toordinal_prev_day by done. lia.
Qed.

(** The ordinal of a date lies within its year. *)
Lemma toordinal_within_year d :
  valid_md d →
  days_before_year (year d) < toordinal d ≤ days_before_year (year d + 1).
Proof.
  intros [Hm Hd]. unfold toordinal. rewrite days_before_year_succ.
  pose proof (days_before_month_bounds (year d) (month d) Hm). lia.
Qed.

(** Ordinals are ordered as year, month and day are. *)
Lemma toordinal_compare d1 d2 :
  valid_md d1 → valid_md d2 →
  (toordinal d1 ?= toordinal d2) =
    match year d1 ?= year d2 with
    | Eq => match month d1 ?= month d2 with
            | Eq => day d1 ?= day d2
            | c => c
            end
    | c => c
    end.
Proof.
  intros H1 H2.
  pose proof (toordinal_within_year d1 H1) as B1.
  pose proof (toordinal_within_year d2 H2) as B2.
  destruct H1 as [Hm1 Hd1], H2 as [Hm2 Hd2].
  destruct (Z.compare_spec (year d1) (year d2)) as [Hy|Hy|Hy].
  - unfold toordinal in *. rewrite Hy in *.
    destruct (Z.compare_spec (month d1) (month d2)) as [Hm|Hm|Hm].
    + rewrite Hm. destruct (Z.compare_spec (day d1) (day d2));
        [apply Z.compare_eq_iff|apply Z.compare_lt_iff|apply Z.compare_gt_iff];
        lia.
    + apply Z.compare_lt_iff.
      pose proof (days_before_month_mono (year d2) (month d1) (month d2)
                    ltac:(lia) Hm ltac:(lia)). lia.
    + apply Z.compare_gt_iff.
      pose proof (days_before_month_mono (year d2) (month d2) (month d1)
                    ltac:(lia) Hm ltac:(lia)). lia.
  - apply Z.compare_lt_iff.
    pose proof (days_before_year_mono (year d1 + 1) (year d2) ltac:(lia)). lia.
  - apply Z.compare_gt_iff.
    pose proof (days_before_year_mono (year d2 + 1) (year d1) ltac:(lia)). lia.
Qed.

Lemma valid_valid_md d : valid d → valid_md d.
Proof. unfold valid, valid_md. tauto. Qed.

Lemma valid_fits d : valid d → fits d.
Proof.
  intros (Hy & Hm & Hd). pose proof (days_in_month_bounds (year d) (month d)).
  unfold fits. lia.
Qed.

(** For valid dates the order of the strings is the order of the days. *)
Lemma strftime_compare_ordinal d1 d2 :
  valid d1 → valid d2 →
  String.compare (strftime_ymd d1) (strftime_ymd d2) =
    (toordinal d1 ?= toordinal d2).
Proof.
  intros H1 H2. rewrite strftime_compare by by apply valid_fits.
  by rewrite toordinal_compare by by apply valid_valid_md.
Qed.

Lemma toordinal_inj d1 d2 :
  valid_md d1 → valid_md d2 → toordinal d1 = toordinal d2 → d1 = d2.
Proof.
  intros H1 H2 E. pose proof (toordinal_compare d1 d2 H1 H2) as C.
  rewrite E, Z.compare_refl in C. symmetry in C.
  destruct d1 as [y1 m1 dd1], d2 as [y2 m2 dd2]. simpl in C.
  destruct (Z.compare_spec y1 y2); try done.
  destruct (Z.compare_spec m1 m2); try done.
  apply Z.compare_eq_iff in C. by subst.
Qed.

Lemma strftime_inj d1 d2 :
  valid d1 → valid d2 → strftime_ymd d1 = strftime_ymd d2 → d1 = d2.
Proof.
  intros H1 H2 E. apply toordinal_inj; try by apply valid_valid_md.
  apply Z.compare_eq_iff. rewrite <- strftime_compare_ordinal by done.
  rewrite E. apply string_compare_refl.
Qed.

(** A clock reading from which [n] days can be subtracted: Python's dates
    span the years 1 to 9999. *)
Lemma minus_days_valid d n :
  valid d → Z.of_nat n < toordinal d → valid (minus_days d n).
Proof.
  intros Hd Hn. pose proof (valid_valid_md d Hd) as Hmd.
  destruct (minus_days_spec d n Hmd) as [Hv Ho].
  split; [|exact Hv].
  pose proof (toordinal_within_year _ Hv) as B.
  pose proof (toordinal_within_year _ Hmd) as B'.
  destruct Hd as [Hy _]. split.
  - destruct (Z.le_gt_cases 1 (year (minus_days d n))) as [|Hlt]; [done|].
    pose proof (days_before_year_mono (year (minus_days d n) + 1) 1 ltac:(lia)).
    change (days_before_year 1) with 0 in *. lia.
  - destruct (Z.le_gt_cases (year (minus_days d n)) 9999) as [|Hgt]; [done|].
    pose proof (days_before_year_mono (year d + 1) (year (minus_days d n))
                  ltac:(lia)). lia.
Qed.

(** ** Alert state *)

Lemma load_alerts_state_same_day st now :
  state_date st = Some (strftime_ymd now) →
  load_alerts_state (Some st) now = st.
Proof.
  intros H. unfold load_alerts_state. rewrite bool_decide_eq_false_2; [done|].
  by intros Hne.
Qed.

Lemma load_alerts_state_other_day st now :
  state_date st ≠ Some (strftime_ymd now) →
  load_alerts_state (Some st) now = mkstate (Some (strftime_ymd now)) [].
Proof.
  intros H. unfold load_alerts_state. by rewrite bool_decide_eq_true_2.
Qed.

(** C5. A persisted alert state loaded on a date other than its stored
    date comes back as an empty fired set stamped with today's date, so the
    keys fired earlier are discarded; loaded on its own date it comes back
    unchanged.  A state saved on one valid calendar day and loaded on
    another is such a reset. *)
Theorem load_alerts_state_resets_on_new_day st now :
  let today := strftime_ymd now in
  (state_date st ≠ Some today →
     load_alerts_state (Some st) now = mkstate (Some today) [])
  ∧ (state_date st = Some today → load_alerts_state (Some st) now = st)
  ∧ (∀ saved_on, valid saved_on → valid now → saved_on ≠ now →
       load_alerts_state (Some (save_alerts_state st saved_on)) now =
         mkstate (Some today) []).
Proof.
  intros today. split; [apply load_alerts_state_other_day|].
  split; [apply load_alerts_state_same_day|].
  intros saved_on Hs Hn Hne. apply load_alerts_state_other_day.
  unfold save_alerts_state. cbn [state_date].
  intros E. apply Hne. apply strftime_inj; [done..|congruence].
Qed.

Ltac valid_date := unfold valid; repeat split; by vm_compute.

Lemma load_alerts_state_resets_on_new_day_witness :
  let yesterday := mkdatetime 2024 2 29 in
  let now := mkdatetime 2024 3 1 in
  let st := mkstate (Some "2024-02-29") ["intraday_iswd_+"; "price_above_hbks"] in
  load_alerts_state (Some st) now = mkstate (Some "2024-03-01") []
  ∧ load_alerts_state (Some st) yesterday = st
  ∧ load_alerts_state (Some (save_alerts_state st yesterday)) now =
      mkstate (Some "2024-03-01") [].
Proof.
  intros yesterday now st.
  pose proof (load_alerts_state_resets_on_new_day st now) as (H1 & _ & H3).
  pose proof (load_alerts_state_resets_on_new_day st yesterday) as (_ & H2 & _).
  split; [apply H1; vm_compute; discriminate|].
  split; [apply H2; reflexivity|].
  apply H3; [valid_date..|discriminate].
Defined.

(** ** Trend calculator *)

Lemma has_price_price_of k e :
  has_price k e = true → ∃ p, price_of k e = Ok p.
Proof.
  unfold has_price, price_of. destruct (prices e !! k) as [[p|]|]; eauto; done.
Qed.

Lemma relevant_has_price h k e : e ∈ relevant h k → has_price k e = true.
Proof.
  unfold relevant. rewrite list_elem_of_In, List.filter_In. tauto.
Qed.

Lemma newest_first_elem_of h k e : e ∈ newest_first h k ↔ e ∈ relevant h k.
Proof. apply sort_desc_elem_of. Qed.

Lemma newest_first_length h k :
  length (newest_first h k) = length (relevant h k).
Proof. apply sort_desc_length. Qed.

Lemma newest_first_price_of h k e :
  e ∈ newest_first h k → ∃ p, price_of k e = Ok p.
Proof.
  rewrite newest_first_elem_of. intros H.
  by apply has_price_price_of, relevant_has_price with h.
Qed.

Lemma percentage_change_ok current past :
  percentage_change current past =
    Ok (if eq past 0 then None
        else Some ((current - past) / past * 100)%float).
Proof.
  unfold percentage_change. destruct (eq past 0) eqn:E; [done|].
  by rewrite truediv_nonzero.
Qed.

(** [calculate_trend], read through [newest_first] and [past_entry]. *)
Lemma calculate_trend_unfold h k days :
  calculate_trend h k days =
    if Z.of_nat (length (relevant h k)) <? 2 then Ok None
    else
      newest ← getitem (newest_first h k) 0;
      current ← price_of k newest;
      e ← past_entry h k days;
      past ← price_of k e;
      percentage_change current past.
Proof.
  unfold calculate_trend, past_entry, newest_first, relevant.
  destruct (_ <? 2); [done|].
  destruct (getitem _ 0) as [newest|]; [|done]. simpl.
  destruct (price_of k newest) as [current|]; [|done]. simpl.
  destruct (_ <=? days); simpl;
    by destruct (getitem _ _) as [e|].
Qed.

(** With two or more relevant entries the current value is read without
    an exception. *)
Lemma trend_current_ok h k :
  2 ≤ Z.of_nat (length (relevant h k)) →
  ∃ newest current,
    head (newest_first h k) = Some newest ∧
    getitem (newest_first h k) 0 = Ok newest ∧
    price_of k newest = Ok current.
Proof.
  intros Hlen. rewrite <- newest_first_length in Hlen.
  destruct (newest_first h k) as [|newest l] eqn:E; [simpl in Hlen; lia|].
  destruct (newest_first_price_of h k newest) as [current Hc];
    [rewrite E; left|].
  exists newest, current. done.
Qed.

Lemma past_entry_raises h k days e :
  past_entry h k days = Raise e → e = IndexError.
Proof.
  unfold past_entry. destruct (_ <=? days); apply getitem_raises.
Qed.

Lemma past_entry_elem_of h k days e :
  past_entry h k days = Ok e → e ∈ newest_first h k.
Proof.
  unfold past_entry, getitem.
  repeat case_match; try done; intros [= <-];
    by eapply list_elem_of_lookup_2.
Qed.

(** C9. [calculate_trend] never raises a division by zero: when the past
    value is zero it returns [None], and a percentage is only ever the
    quotient by a past value that is not zero. *)
Theorem trend_zero_past_not_available h k (days : Z) :
  calculate_trend h k days ≠ Raise ZeroDivisionError
  ∧ (∀ e past,
       past_entry h k days = Ok e → price_of k e = Ok past →
       eq past 0 = true → calculate_trend h k days = Ok None)
  ∧ (∀ t,
       calculate_trend h k days = Ok (Some t) →
       ∃ newest e current past,
         head (newest_first h k) = Some newest ∧
         price_of k newest = Ok current ∧
         past_entry h k days = Ok e ∧ price_of k e = Ok past ∧
         eq past 0 = false ∧
         t = ((current - past) / past * 100)%float).
Proof.
  rewrite calculate_trend_unfold.
  destruct (Z.ltb_spec (Z.of_nat (length (relevant h k))) 2) as [|Hlen].
  { split; [done|]. split; [done|]. intros t [=]. }
  destruct (trend_current_ok h k Hlen) as (newest & current & Hh & Hg & Hc).
  rewrite Hg. simpl. rewrite Hc. simpl.
  destruct (past_entry h k days) as [e|x] eqn:Hp; simpl.
  - destruct (newest_first_price_of h k e) as [past Hpast];
      [by eapply past_entry_elem_of|].
    rewrite Hpast. simpl. rewrite percentage_change_ok.
    split; [done|]. split.
    + intros e' past' [= <-] Hp' Hz. rewrite Hpast in Hp'.
      injection Hp' as <-. by rewrite Hz.
    + intros t Ht. exists newest, e, current, past.
      destruct (eq past 0); [done|]. injection Ht as <-. done.
  - apply past_entry_raises in Hp as ->. split; [done|]. split; [done|].
    intros t [=].
Qed.

Lemma trend_zero_past_not_available_witness :
  let h := mkhistory
             [mkentry "2024-02-27" {[ "iswd" := Some 0%float ]} None;
              mkentry "2024-02-28" {[ "iswd" := Some 2%float ]} None] in
  calculate_trend h "iswd" 5 = Ok None.
Proof.
  intros h.
  refine (proj1 (proj2 (trend_zero_past_not_available h "iswd" 5))
            (mkentry "2024-02-27" {[ "iswd" := Some 0%float ]} None) 0%float
            _ _ _); reflexivity.
Defined.

Lemma newest_first_sorted h k :
  StronglySorted (newer_or_same date) (newest_first h k).
Proof. apply sort_desc_sorted. Qed.

(** C4. With fewer than two entries holding a price for the instrument the
    trend is not available.  Otherwise the current value is the price of the
    most recent entry; the past value is the price of the oldest entry when
    there are at most [N] of them, and the price of the entry [N] places down
    the newest-first list when there are more. *)
Theorem trend_window_selection h k (N : Z) :
  0 ≤ N →
  let sorted := newest_first h k in
  let count := Z.of_nat (length (relevant h k)) in
  sorted ≡ₚ relevant h k
  ∧ StronglySorted (newer_or_same date) sorted
  ∧ (count < 2 → calculate_trend h k N = Ok None)
  ∧ (2 ≤ count →
     ∃ newest current,
       head sorted = Some newest ∧ price_of k newest = Ok current ∧
       (∀ e, e ∈ relevant h k → str_ge (date newest) (date e) = true) ∧
       (count ≤ N →
          ∃ oldest past,
            last sorted = Some oldest ∧ price_of k oldest = Ok past ∧
            (∀ e, e ∈ relevant h k → str_ge (date e) (date oldest) = true) ∧
            calculate_trend h k N = percentage_change current past) ∧
       (N < count →
          ∃ nth past,
            sorted !! Z.to_nat N = Some nth ∧ price_of k nth = Ok past ∧
            calculate_trend h k N = percentage_change current past)).
Proof.
  intros HN sorted count. subst sorted.
  split; [apply sort_desc_perm|]. split; [apply newest_first_sorted|].
  rewrite calculate_trend_unfold. fold count. split.
  { intros Hc. by destruct (Z.ltb_spec count 2); [|lia]. }
  intros Hc. destruct (Z.ltb_spec count 2); [lia|].
  destruct (trend_current_ok h k Hc) as (newest & current & Hh & Hg & Hcur).
  exists newest, current. rewrite Hg. simpl. rewrite Hcur. simpl.
  split; [done|]. split; [done|]. split.
  { intros e He. eapply (sorted_head_newest date);
      [apply newest_first_sorted|exact Hh|by apply newest_first_elem_of]. }
  assert (Z.of_nat (length (newest_first h k)) = count) as Hlen
    by (unfold count; by rewrite newest_first_length).
  unfold past_entry. rewrite Hlen. split.
  - intros Hle. destruct (Z.leb_spec count N); [|lia].
    destruct (last (newest_first h k)) as [oldest|] eqn:Hl;
      [|apply last_None in Hl; rewrite Hl in Hlen; simpl in Hlen; lia].
    destruct (newest_first_price_of h k oldest) as [past Hpast];
      [by eapply last_Some_elem_of|].
    exists oldest, past. rewrite (getitem_last _ _ Hl). simpl.
    rewrite Hpast. simpl. split; [done|]. split; [done|]. split; [|done].
    intros e He. eapply (sorted_last_oldest date);
      [apply newest_first_sorted|exact Hl|by apply newest_first_elem_of].
  - intros Hlt. destruct (Z.leb_spec count N); [lia|].
    destruct (lookup_lt_is_Some_2 (newest_first h k) (Z.to_nat N))
      as [nth Hn]; [lia|].
    destruct (newest_first_price_of h k nth) as [past Hpast];
      [by eapply list_elem_of_lookup_2|].
    exists nth, past. rewrite getitem_nonneg by done. rewrite Hn. simpl.
    by rewrite Hpast.
Qed.

Lemma trend_window_selection_witness :
  let h := mkhistory
             [mkentry "2024-02-27" {[ "iswd" := Some 1%float ]} None;
              mkentry "2024-02-29" {[ "iswd" := Some 4%float ]} None;
              mkentry "2024-02-28" {[ "iswd" := Some 2%float ]} None;
              mkentry "2024-02-26" {[ "iswd" := None ]} None] in
  calculate_trend h "iswd" 1 = Ok (Some 100%float)
  ∧ calculate_trend h "iswd" 5 = Ok (Some 300%float).
Proof.
  intros h. split.
  - destruct (trend_window_selection h "iswd" 1 ltac:(lia))
      as (_ & _ & _ & H).
    destruct (H ltac:(by vm_compute))
      as (newest & current & Hh & Hc & _ & _ & Hn).
    destruct (Hn ltac:(by vm_compute)) as (nth & past & Hnth & Hp & ->).
    vm_compute in Hh. injection Hh as <-.
    vm_compute in Hnth. injection Hnth as <-.
    vm_compute in Hc, Hp. injection Hc as <-. injection Hp as <-.
    reflexivity.
  - destruct (trend_window_selection h "iswd" 5 ltac:(lia))
      as (_ & _ & _ & H).
    destruct (H ltac:(by vm_compute))
      as (newest & current & Hh & Hc & _ & Ho & _).
    destruct (Ho ltac:(by vm_compute)) as (oldest & past & Hl & Hp & _ & ->).
    vm_compute in Hh. injection Hh as <-.
    vm_compute in Hl. injection Hl as <-.
    vm_compute in Hc, Hp. injection Hc as <-. injection Hp as <-.
    reflexivity.
Defined.

(** ** History store *)

Lemma str_ge_not_lt a b : str_ge a b = negb (str_lt a b).
Proof.
  unfold str_ge, str_lt, String.leb, String.ltb.
  rewrite (String.compare_antisym a b). by destruct (String.compare b a).
Qed.

(** For valid dates [>=] on the strings is [>=] on the days. *)
Lemma str_ge_strftime d1 d2 :
  valid d1 → valid d2 →
  str_ge (strftime_ymd d1) (strftime_ymd d2) = (toordinal d2 <=? toordinal d1).
Proof.
  intros H1 H2. unfold str_ge, String.leb.
  rewrite strftime_compare_ordinal by done.
  unfold Z.leb. done.
Qed.

(** The cutoff of [save_history] is the day 90 days before the clock's. *)
Lemma cutoff_ordinal now :
  valid now → Z.of_nat HISTORY_DAYS < toordinal now →
  valid (minus_days now HISTORY_DAYS) ∧
  toordinal (minus_days now HISTORY_DAYS) = toordinal now - 90.
Proof.
  intros Hv Hn. split; [by apply minus_days_valid|].
  by destruct (minus_days_spec now HISTORY_DAYS (valid_valid_md _ Hv)) as [_ ->].
Qed.

Lemma filter_sublist {A} (f : A → bool) (l : list A) :
  sublist (List.filter f l) l.
Proof.
  induction l as [|x l IH]; simpl; [constructor|].
  destruct (f x); by constructor.
Qed.

(** C7. After a save the history holds exactly the entries whose date string
    is not below the cutoff string, each unchanged and in its old order; the
    cutoff is the [%Y-%m-%d] string of the day 90 days before the clock's
    date, so an entry dated with a valid day stays exactly when that day is
    at most 90 days back. *)
Theorem save_history_trims_by_date_string now h :
  let cutoff_str := strftime_ymd (minus_days now HISTORY_DAYS) in
  (∀ e, e ∈ entries (save_history now h) ↔
          e ∈ entries h ∧ str_lt (date e) cutoff_str = false)
  ∧ sublist (entries (save_history now h)) (entries h)
  ∧ (valid now → Z.of_nat HISTORY_DAYS < toordinal now →
     ∀ e d, e ∈ entries h → valid d → date e = strftime_ymd d →
       (e ∈ entries (save_history now h) ↔ toordinal now - toordinal d ≤ 90)).
Proof.
  intros cutoff_str.
  assert (∀ e, e ∈ entries (save_history now h) ↔
               e ∈ entries h ∧ str_lt (date e) cutoff_str = false) as Hmem.
  { intros e. unfold save_history. cbn [entries].
    rewrite !list_elem_of_In, List.filter_In. fold cutoff_str.
    rewrite str_ge_not_lt, negb_true_iff. done. }
  split; [exact Hmem|]. split; [apply filter_sublist|].
  intros Hv Hn e d He Hd Hdate.
  destruct (cutoff_ordinal now Hv Hn) as [Hcv Hco].
  rewrite Hmem, <- (negb_true_iff (str_lt _ _)), <- str_ge_not_lt, Hdate.
  unfold cutoff_str. rewrite str_ge_strftime by done. rewrite Hco.
  rewrite Z.leb_le. intuition lia.
Qed.


Lemma save_history_trims_by_date_string_witness :
  let now := mkdatetime 2024 3 1 in
  let old := mkentry "2023-12-01" ∅ None in
  let edge := mkentry "2023-12-02" ∅ None in
  let h := mkhistory [old; edge] in
  edge ∈ entries (save_history now h) ∧ old ∉ entries (save_history now h).
Proof.
  intros now old edge h.
  pose proof (save_history_trims_by_date_string now h) as (_ & _ & H).
  assert (valid now) as Hv by valid_date.
  assert (Z.of_nat HISTORY_DAYS < toordinal now) as Hn by by vm_compute.
  split.
  - apply (H Hv Hn edge (mkdatetime 2023 12 2));
      [right; left|valid_date|reflexivity|by vm_compute].
  - intros Hin.
    apply (H Hv Hn old (mkdatetime 2023 12 1)) in Hin;
      [|left|valid_date|reflexivity].
    by vm_compute in Hin.
Defined.

(** ** Daily summary *)

(** A window of zero or more days is always within reach of the list. *)
Lemma calculate_trend_total h k (days : Z) :
  0 ≤ days → ∃ t, calculate_trend h k days = Ok t.
Proof.
  intros Hd. rewrite calculate_trend_unfold.
  destruct (Z.ltb_spec (Z.of_nat (length (relevant h k))) 2) as [|Hlen];
    [eauto|].
  destruct (trend_current_ok h k Hlen) as (newest & current & _ & -> & Hc).
  simpl. rewrite Hc. simpl.
  assert (∃ e, past_entry h k days = Ok e) as [e He].
  { unfold past_entry. rewrite <- newest_first_length in Hlen.
    destruct (Z.leb_spec (Z.of_nat (length (newest_first h k))) days).
    - destruct (last (newest_first h k)) as [e|] eqn:Hl.
      + exists e. by apply getitem_last.
      + apply last_None in Hl. rewrite Hl in Hlen. simpl in Hlen. lia.
    - destruct (lookup_lt_is_Some_2 (newest_first h k) (Z.to_nat days))
        as [e He]; [lia|].
      exists e. rewrite getitem_nonneg by done. by rewrite He. }
  rewrite He. simpl.
  destruct (newest_first_price_of h k e) as [past ->];
    [by eapply past_entry_elem_of|].
  simpl. rewrite percentage_change_ok. eauto.
Qed.

Lemma summary_asset_unavailable rate yf h s k cfg :
  get_asset_price k cfg rate yf = None →
  summary_asset rate yf h s (k, cfg) =
    Ok (mksummary_state (lines s ++ [Unavailable (name cfg); Blank])
          (day_prices s)).
Proof. intros H. unfold summary_asset. by rewrite H. Qed.

Lemma summary_asset_priced rate yf h s k cfg pd :
  get_asset_price k cfg rate yf = Some pd →
  ∃ more,
    summary_asset rate yf h s (k, cfg) =
      Ok (mksummary_state
            (lines s ++ Header (emoji cfg) (name cfg) :: more)
            (<[k := Some (price_gbp pd)]> (day_prices s))).
Proof.
  intros H. unfold summary_asset. rewrite H.
  destruct (calculate_trend_total h k 5 ltac:(lia)) as [weekly ->].
  destruct (calculate_trend_total h k 22 ltac:(lia)) as [monthly ->].
  assert (∃ pct,
    (if ne (prev_close_gbp pd) 0
     then truediv (price_gbp pd - prev_close_gbp pd)%float (prev_close_gbp pd)
            ≫= λ q, Ok (q * 100)%float
     else Ok 0%float) = Ok pct) as [pct ->].
  { unfold ne. destruct (PrimFloat.eqb (prev_close_gbp pd) 0) eqn:E; simpl;
      [eauto|].
    rewrite truediv_nonzero by done. simpl. eauto. }
  simpl.
  repeat case_match; eexists; rewrite <- ?(assoc_L (++)); simpl; reflexivity.
Qed.

Lemma summary_asset_total rate yf h s a :
  ∃ s', summary_asset rate yf h s a = Ok s'.
Proof.
  destruct a as [k cfg].
  destruct (get_asset_price k cfg rate yf) as [pd|] eqn:E.
  - destruct (summary_asset_priced rate yf h s k cfg pd E) as [more ->]. eauto.
  - rewrite summary_asset_unavailable by done. eauto.
Qed.

(** What the loop of [cmd_summary] leaves behind, over any list of
    instruments. *)
Lemma summary_loop_spec rate yf h l s :
  ∃ s' more,
    for_each (summary_asset rate yf h) l s = Ok s' ∧
    lines s' = lines s ++ more ∧
    (∀ k cfg, (k, cfg) ∈ l →
       match get_asset_price k cfg rate yf with
       | None => Unavailable (name cfg) ∈ more
       | Some _ => Header (emoji cfg) (name cfg) ∈ more
       end) ∧
    (∀ k, (∀ cfg, (k, cfg) ∈ l → get_asset_price k cfg rate yf = None) →
       day_prices s' !! k = day_prices s !! k) ∧
    (NoDup l.*1 → ∀ k cfg pd,
       (k, cfg) ∈ l → get_asset_price k cfg rate yf = Some pd →
       day_prices s' !! k = Some (Some (price_gbp pd))).
Proof.
  revert s. induction l as [|[k0 cfg0] l IH]; intros s.
  { exists s, []. simpl. rewrite app_nil_r.
    repeat split; try done; intros; set_solver. }
  cbn [for_each].
  assert (∃ s1 more1,
    summary_asset rate yf h s (k0, cfg0) = Ok s1 ∧
    lines s1 = lines s ++ more1 ∧
    match get_asset_price k0 cfg0 rate yf with
    | None => Unavailable (name cfg0) ∈ more1 ∧ day_prices s1 = day_prices s
    | Some pd => Header (emoji cfg0) (name cfg0) ∈ more1 ∧
                 day_prices s1 = <[k0 := Some (price_gbp pd)]> (day_prices s)
    end) as (s1 & more1 & -> & Hl1 & H1).
  { destruct (get_asset_price k0 cfg0 rate yf) as [pd|] eqn:E.
    - destruct (summary_asset_priced rate yf h s k0 cfg0 pd E) as [more ->].
      eexists _, _. split; [done|]. split; [done|]. split; [left|done].
    - rewrite summary_asset_unavailable by done.
      eexists _, _. split; [done|]. split; [done|]. split; [left|done]. }
  destruct (IH s1) as (s' & more & -> & Hl & Hmark & Hnone & Hsome).
  exists s', (more1 ++ more). split; [done|].
  split; [by rewrite Hl, Hl1, (assoc_L (++))|]. split; [|split].
  - intros k cfg [[= -> ->]|Hin]%elem_of_cons.
    + destruct (get_asset_price k0 cfg0 rate yf);
        apply elem_of_app; left; apply H1.
    + specialize (Hmark k cfg Hin).
      destruct (get_asset_price k cfg rate yf);
        apply elem_of_app; by right.
  - intros k Hk. rewrite Hnone by (intros; apply Hk; by right).
    specialize (Hk cfg0).
    destruct (decide (k = k0)) as [->|Hne].
    + rewrite Hk in H1 by left. by destruct H1 as [_ ->].
    + destruct (get_asset_price k0 cfg0 rate yf); destruct H1 as [_ ->];
        [by rewrite lookup_insert_ne|done].
  - intros [Hk0 Hnd]%NoDup_cons k cfg pd [[= -> ->]|Hin]%elem_of_cons Hpd.
    + rewrite Hnone.
      * rewrite Hpd in H1. destruct H1 as [_ ->]. by rewrite lookup_insert_eq.
      * intros cfg Hin. exfalso. apply Hk0.
        by apply (list_elem_of_fmap_2' fst l (k0, cfg)).
    + by eapply Hsome.
Qed.

Lemma NoDup_fst_unique {K V} (l : list (K * V)) k v1 v2 :
  NoDup l.*1 → (k, v1) ∈ l → (k, v2) ∈ l → v1 = v2.
Proof.
  induction l as [|[k0 v0] l IH]; [by intros _ ?%elem_of_nil|].
  intros [Hk0 Hnd]%NoDup_cons H1 H2.
  apply elem_of_cons in H1 as [H1|H1];
    apply elem_of_cons in H2 as [H2|H2]; simplify_eq; try done.
  - exfalso. apply Hk0. by apply (list_elem_of_fmap_2' fst l (k0, v2)).
  - exfalso. apply Hk0. by apply (list_elem_of_fmap_2' fst l (k0, v1)).
  - by apply IH.
Qed.

Lemma ASSETS_NoDup : NoDup ASSETS.*1.
Proof. apply (bool_decide_unpack _). by vm_compute. Qed.

(** The prices gathered by the loop of [cmd_summary], instrument by
    instrument. *)
Lemma summary_prices_lookup rate yf h l s s' k cfg :
  NoDup l.*1 → day_prices s = ∅ →
  for_each (summary_asset rate yf h) l s = Ok s' →
  (k, cfg) ∈ l →
  day_prices s' !! k =
    (λ pd, Some (price_gbp pd)) <$> get_asset_price k cfg rate yf.
Proof.
  intros Hnd Hs Hloop Hin.
  destruct (summary_loop_spec rate yf h l s)
    as (s'' & more & Hloop' & _ & _ & Hnone & Hsome).
  rewrite Hloop in Hloop'. injection Hloop' as <-.
  destruct (get_asset_price k cfg rate yf) as [pd|] eqn:E; simpl.
  - by apply (Hsome Hnd k cfg pd).
  - rewrite Hnone, Hs; [done|].
    intros cfg' Hin'. by rewrite (NoDup_fst_unique l k cfg' cfg).
Qed.

Lemma filter_none {A} (f : A → bool) (l : list A) :
  (∀ x, x ∈ l → f x = false) → List.filter f l = [].
Proof.
  induction l as [|x l IH]; intros H; simpl; [done|].
  rewrite (H x) by left. apply IH. intros y Hy. apply H. by right.
Qed.

(** What [cmd_summary] writes when some price was gathered: the other days'
    entries that survive the trim, then today's entry. *)
Lemma summary_write_entries now h prices rate :
  valid now → Z.of_nat HISTORY_DAYS < toordinal now →
  let today := strftime_ymd now in
  let kept := List.filter (λ e, str_ne (date e) today) (entries h) in
  let new := mkentry today prices rate in
  ∃ others,
    entries (save_history now (mkhistory (kept ++ [new]))) = others ++ [new] ∧
    (∀ e, e ∈ others → String.eqb (date e) today = false).
Proof.
  intros Hv Hn today kept new.
  destruct (cutoff_ordinal now Hv Hn) as [Hcv Hco].
  exists (List.filter
            (λ e, str_ge (date e) (strftime_ymd (minus_days now HISTORY_DAYS)))
            kept).
  split.
  - unfold save_history. cbn [entries]. rewrite List.filter_app. f_equal.
    cbn [List.filter date new]. unfold today.
    rewrite str_ge_strftime by done. rewrite Hco.
    by destruct (Z.leb_spec (toordinal now - 90) (toordinal now)); [|lia].
  - intros e. rewrite list_elem_of_In, List.filter_In. intros [He _].
    unfold kept in He. apply List.filter_In in He as [_ He].
    unfold str_ne in He. by apply negb_true_iff.
Qed.

(** [cmd_summary] runs to its end whatever the provider answers. *)
Lemma cmd_summary_total yf file now now_save :
  ∃ r, cmd_summary yf file now now_save = Ok r.
Proof.
  unfold cmd_summary.
  destruct (summary_loop_spec (get_gbp_usd_rate yf) yf (load_history file)
              ASSETS (mksummary_state [Title; DateLine now; Blank] ∅))
    as (s & more & -> & _). simpl. eauto.
Qed.

(** C6. When two summaries are written on the same calendar date, the
    history after the second holds exactly one entry for that date, and it
    carries the prices and the exchange rate of the second run: the earlier
    entry is replaced, not joined by a duplicate. *)
Theorem summary_same_day_replaces yf1 yf2 file now r1 r2 :
  valid now → Z.of_nat HISTORY_DAYS < toordinal now →
  cmd_summary yf1 file now now = Ok r1 →
  cmd_summary yf2 (history_file r1) now now = Ok r2 →
  (∃ k cfg, (k, cfg) ∈ ASSETS ∧
     get_asset_price k cfg (get_gbp_usd_rate yf2) yf2 ≠ None) →
  ∃ h2 e,
    history_file r2 = Some h2 ∧
    List.filter (λ x, String.eqb (date x) (strftime_ymd now)) (entries h2)
      = [e] ∧
    date e = strftime_ymd now ∧
    gbp_usd_rate e = get_gbp_usd_rate yf2 ∧
    (∀ k cfg, (k, cfg) ∈ ASSETS →
       prices e !! k =
         (λ pd, Some (price_gbp pd))
           <$> get_asset_price k cfg (get_gbp_usd_rate yf2) yf2).
Proof.
  intros Hv Hn _ H2 (k & cfg & Hin & Hok).
  unfold cmd_summary in H2.
  destruct (for_each _ ASSETS _) as [s|] eqn:Hloop; [|done].
  simpl in H2. injection H2 as <-. cbn [history_file].
  pose proof (λ k cfg,
    summary_prices_lookup _ _ _ _
      (mksummary_state [Title; DateLine now; Blank] ∅) s k cfg
      ASSETS_NoDup eq_refl Hloop) as Hprices.
  assert (size (day_prices s) ≠ 0%nat) as Hsize.
  { intros Hz. apply map_size_empty_iff in Hz.
    specialize (Hprices k cfg Hin). rewrite Hz, lookup_empty in Hprices.
    by destruct (get_asset_price k cfg (get_gbp_usd_rate yf2) yf2). }
  destruct (Nat.eqb_spec (size (day_prices s)) 0) as [|_]; [done|].
  cbn [negb].
  destruct (summary_write_entries now (load_history (history_file r1))
              (day_prices s) (get_gbp_usd_rate yf2) Hv Hn)
    as (others & Hentries & Hothers).
  eexists _, _. split; [reflexivity|].
  rewrite Hentries, List.filter_app, (filter_none _ others Hothers).
  cbn [List.filter date app]. rewrite String.eqb_refl.
  split; [reflexivity|]. split; [done|]. split; [done|]. exact Hprices.
Qed.

Lemma summary_same_day_replaces_witness :
  let now := mkdatetime 2024 3 1 in
  let quotes (close : float) : provider := λ t _,
    if String.eqb t "GBPUSD=X" then Ok [mkbar 1.25 1.25]%float
    else if String.eqb t "ISWD.L" then Ok [mkbar 1 1; mkbar 1 close]%float
    else Raise ProviderError in
  ∃ r1 r2 h2 e,
    cmd_summary (quotes 1.5%float) None now now = Ok r1 ∧
    cmd_summary (quotes 1.75%float) (history_file r1) now now = Ok r2 ∧
    history_file r2 = Some h2 ∧
    List.filter (λ x, String.eqb (date x) "2024-03-01") (entries h2) = [e] ∧
    gbp_usd_rate e = Some 1.25%float ∧
    prices e !! "iswd" = Some (Some 1.75%float) ∧
    prices e !! "gold_gbp" = None.
Proof.
  intros now quotes.
  destruct (cmd_summary_total (quotes 1.5%float) None now now) as [r1 E1].
  destruct (cmd_summary_total (quotes 1.75%float) (history_file r1) now now)
    as [r2 E2].
  destruct (summary_same_day_replaces (quotes 1.5%float) (quotes 1.75%float)
              None now r1 r2) as (h2 & e & Hh & Hf & _ & Hr & Hp);
    [valid_date|by vm_compute|done|done| |].
  { exists "iswd", (mkasset "ISWD.L" "ISWD" "📈" "GBP" "").
    split; [right; left|by vm_compute]. }
  exists r1, r2, h2, e. repeat split; try done.
  - by rewrite (Hp "iswd" (mkasset "ISWD.L" "ISWD" "📈" "GBP" ""))
      by (right; left).
  - by rewrite (Hp "gold_gbp" (mkasset "GC=F" "Gold" "🥇" "USD" "per oz"))
      by left.
Defined.

(** ** Intraday watch *)

(** *** Alert keys *)

Lemma string_append_inj_same_length a b s t :
  String.length s = String.length t → a +:+ s = b +:+ t → a = b ∧ s = t.
Proof.
  intros Hlen. revert b. induction a as [|x a IH]; intros [|y b] H; simpl in H.
  - done.
  - exfalso. apply (f_equal String.length) in H.
    rewrite !string_length_app in H. simpl in H. lia.
  - exfalso. apply (f_equal String.length) in H.
    rewrite !string_length_app in H. simpl in H. lia.
  - injection H as -> H. destruct (IH _ H) as [-> ->]. done.
Qed.

(** The key of a rise and the key of a fall of the same instrument
    differ. *)
Lemma intraday_key_sign k c1 c2 :
  gt c1 0 = true → gt c2 0 = false → intraday_key k c1 ≠ intraday_key k c2.
Proof.
  unfold intraday_key. intros -> -> H.
  do 3 apply string_append_inj_l in H. discriminate.
Qed.

Lemma intraday_key_alert_keys k c : intraday_key k c ∈ alert_keys k.
Proof.
  unfold intraday_key, alert_keys. destruct (gt c 0).
  - left.
  - right. left.
Qed.

Lemma alert_keys_inj key k1 k2 :
  key ∈ alert_keys k1 → key ∈ alert_keys k2 → k1 = k2.
Proof.
  unfold alert_keys, above_key, below_key.
  rewrite !elem_of_cons, !elem_of_nil.
  intros [->|[->|[->|[->|[]]]]] [H|[H|[H|[H|[]]]]];
    try (simpl in H; discriminate).
  - apply string_append_inj_l in H.
    by apply string_append_inj_same_length in H as [-> _].
  - apply string_append_inj_l in H.
    by apply string_append_inj_same_length in H as [_ [=]].
  - apply string_append_inj_l in H.
    by apply string_append_inj_same_length in H as [_ [=]].
  - apply string_append_inj_l in H.
    by apply string_append_inj_same_length in H as [-> _].
  - by apply string_append_inj_l in H.
  - by apply string_append_inj_l in H.
Qed.

(** *** The fired list only grows *)

Lemma grows_refl allowed w : grows allowed w w.
Proof.
  exists [], []. rewrite !app_nil_r. destruct w as [[d f] a t].
  repeat split; try done; try apply NoDup_nil_2;
    by apply elem_of_nil in H.
Qed.

Lemma grows_trans allowed w1 w2 w3 :
  grows allowed w1 w2 → grows allowed w2 w3 → grows allowed w1 w3.
Proof.
  intros (n1 & t1 & Hs1 & Ha1 & Ht1 & Hl1 & Hd1 & Hn1)
         (n2 & t2 & Hs2 & Ha2 & Ht2 & Hl2 & Hd2 & Hn2).
  exists (n1 ++ n2), (t1 ++ t2).
  rewrite Hs2, Ha2, Ht2, Hs1, Ha1, Ht1. cbn [state_date fired].
  rewrite !(assoc_L (++)), !length_app, Hl1, Hl2.
  repeat split; try done.
  - apply NoDup_app. split; [done|]. split; [|done].
    intros key H1 H2. apply Hn2 in H2 as [H2 _]. apply H2.
    rewrite Hs1. cbn [fired]. apply elem_of_app. by right.
  - apply elem_of_app in H as [H|H]; [by apply Hn1|].
    apply Hn2 in H as [H _]. intros Hin. apply H.
    rewrite Hs1. cbn [fired]. apply elem_of_app. by left.
  - apply elem_of_app in H as [H|H]; [by apply Hn1|by apply Hn2].
Qed.

Lemma grows_weaken (P Q : string → Prop) w w' :
  (∀ key, P key → Q key) → grows P w w' → grows Q w w'.
Proof.
  intros HPQ (n & t & Hs & Ha & Ht & Hl & Hd & Hn).
  exists n, t. repeat split; try done; [by apply Hn|].
  apply HPQ. by apply Hn.
Qed.

Lemma grows_fired allowed w w' key :
  grows allowed w w' → key ∈ fired (state w) → key ∈ fired (state w').
Proof.
  intros (n & t & -> & _) H. cbn [fired]. apply elem_of_app. by left.
Qed.

Lemma fire_once_grows (allowed : string → Prop) key text w :
  allowed key → grows allowed w (fire_once key text w).
Proof.
  intros Hk. unfold fire_once. case_bool_decide as H; [|apply grows_refl].
  exists [key], [text]. cbn [state alerts_to_send triggered].
  repeat split; try done.
  - apply NoDup_singleton.
  - by apply list_elem_of_singleton in H0 as ->.
  - by apply list_elem_of_singleton in H0 as ->.
Qed.

Lemma fire_once_fired key text w : key ∈ fired (state (fire_once key text w)).
Proof.
  unfold fire_once. case_bool_decide as H.
  - cbn [state fired]. apply elem_of_app. right. left.
  - done.
Qed.

(** *** One instrument, one cycle *)

Lemma change_pct_of_ok current open_price :
  ne open_price 0 = true →
  change_pct_of current open_price =
    Ok ((current - open_price) / open_price * 100)%float.
Proof.
  unfold ne, change_pct_of. intros H%negb_true_iff.
  by rewrite truediv_nonzero.
Qed.

(** An instrument whose price could not be obtained is passed over. *)
Lemma watch_asset_skip thr ths pa rate yf w k cfg :
  get_asset_price k cfg rate yf = None →
  watch_asset thr ths pa rate yf w (k, cfg) = Ok w.
Proof. intros H. unfold watch_asset. by rewrite H. Qed.

Lemma watch_asset_priced thr ths pa rate yf w k cfg pd :
  get_asset_price k cfg rate yf = Some pd →
  ∃ w',
    watch_asset thr ths pa rate yf w (k, cfg) = Ok w' ∧
    grows (λ key, key ∈ alert_keys k) w w' ∧
    (∀ c, ne (open_gbp pd) 0 = true →
          change_pct_of (price_gbp pd) (open_gbp pd) = Ok c →
          ge (abs c) (default thr (ths !! k)) = true →
          intraday_key k c ∈ fired (state w')).
Proof.
  intros H. unfold watch_asset. rewrite H.
  set (K := λ key, key ∈ alert_keys k).
  assert (∃ w1,
    (if ne (open_gbp pd) 0
     then change_pct_of (price_gbp pd) (open_gbp pd)
            ≫= λ change_pct,
                 if ge (abs change_pct) (default thr (ths !! k))
                 then Ok (fire_once (intraday_key k change_pct)
                            (IntradayAlert (gt change_pct 0) (name cfg)
                               (price_gbp pd) (open_gbp pd) change_pct
                               (default thr (ths !! k))) w)
                 else Ok w
     else Ok w) = Ok w1 ∧
    grows K w w1 ∧
    (∀ c, ne (open_gbp pd) 0 = true →
          change_pct_of (price_gbp pd) (open_gbp pd) = Ok c →
          ge (abs c) (default thr (ths !! k)) = true →
          intraday_key k c ∈ fired (state w1))) as (w1 & -> & Hg1 & Hf1).
  { destruct (ne (open_gbp pd) 0) eqn:Hne.
    - rewrite change_pct_of_ok by done. simpl.
      destruct (ge _ _) eqn:Hge.
      + eexists. split; [done|]. split.
        * apply fire_once_grows. apply intraday_key_alert_keys.
        * intros c _ [= <-] _. apply fire_once_fired.
      + exists w. split; [done|]. split; [apply grows_refl|].
        intros c _ [= <-] Hc. congruence.
    - exists w. split; [done|]. split; [apply grows_refl|]. done. }
  simpl.
  set (apa := default (mkprice_alert None None) (pa !! k)).
  set (w2 := match above apa with
             | Some a =>
                 if ge (price_gbp pd) a
                 then fire_once (above_key k)
                        (AboveAlert (name cfg) a (price_gbp pd)) w1
                 else w1
             | None => w1
             end).
  assert (grows K w1 w2) as Hg2.
  { unfold w2. destruct (above apa) as [a|]; [|apply grows_refl].
    destruct (ge (price_gbp pd) a); [|apply grows_refl].
    apply fire_once_grows. unfold K, alert_keys. set_solver. }
  set (w3 := match below apa with
             | Some b =>
                 if le (price_gbp pd) b
                 then fire_once (below_key k)
                        (BelowAlert (name cfg) b (price_gbp pd)) w2
                 else w2
             | None => w2
             end).
  assert (grows K w2 w3) as Hg3.
  { unfold w3. destruct (below apa) as [b|]; [|apply grows_refl].
    destruct (le (price_gbp pd) b); [|apply grows_refl].
    apply fire_once_grows. unfold K, alert_keys. set_solver. }
  exists w3. split; [done|]. split.
  - eapply grows_trans; [exact Hg1|]. by eapply grows_trans.
  - intros c H1 H2 H3. eapply grows_fired; [exact Hg3|].
    eapply grows_fired; [exact Hg2|]. by apply Hf1.
Qed.

Lemma watch_asset_total thr ths pa rate yf w a :
  ∃ w', watch_asset thr ths pa rate yf w a = Ok w'.
Proof.
  destruct a as [k cfg].
  destruct (get_asset_price k cfg rate yf) as [pd|] eqn:E.
  - destruct (watch_asset_priced thr ths pa rate yf w k cfg pd E)
      as (w' & -> & _). eauto.
  - rewrite watch_asset_skip by done. eauto.
Qed.

(** *** The loop over the instruments *)

Lemma watch_loop_cons config rate yf a l w :
  watch_loop config rate yf (a :: l) w =
    (w' ← watch_loop config rate yf [a] w; watch_loop config rate yf l w').
Proof.
  unfold watch_loop. cbn [for_each].
  by destruct (watch_asset _ _ _ _ _ _ _).
Qed.

Lemma watch_loop_spec config rate yf l w :
  ∃ w',
    watch_loop config rate yf l w = Ok w' ∧
    grows (λ key, ∃ k cfg, (k, cfg) ∈ l ∧
                    get_asset_price k cfg rate yf ≠ None ∧
                    key ∈ alert_keys k) w w' ∧
    (∀ k cfg pd c,
       (k, cfg) ∈ l → get_asset_price k cfg rate yf = Some pd →
       ne (open_gbp pd) 0 = true →
       change_pct_of (price_gbp pd) (open_gbp pd) = Ok c →
       ge (abs c) (threshold_for config k) = true →
       intraday_key k c ∈ fired (state w')).
Proof.
  revert w. induction l as [|[k0 cfg0] l IH]; intros w.
  { exists w. split; [done|]. split; [apply grows_refl|].
    by intros ? ? ? ? ?%elem_of_nil. }
  rewrite watch_loop_cons.
  assert (∃ w1,
    watch_loop config rate yf [(k0, cfg0)] w = Ok w1 ∧
    grows (λ key, get_asset_price k0 cfg0 rate yf ≠ None ∧
                  key ∈ alert_keys k0) w w1 ∧
    (∀ pd c, get_asset_price k0 cfg0 rate yf = Some pd →
       ne (open_gbp pd) 0 = true →
       change_pct_of (price_gbp pd) (open_gbp pd) = Ok c →
       ge (abs c) (threshold_for config k0) = true →
       intraday_key k0 c ∈ fired (state w1))) as (w1 & -> & Hg1 & Hf1).
  { unfold watch_loop. cbn [for_each].
    destruct (get_asset_price k0 cfg0 rate yf) as [pd|] eqn:E.
    - edestruct (watch_asset_priced) as (w1 & -> & Hg & Hf); [exact E|].
      exists w1. split; [done|]. split.
      + eapply grows_weaken; [|exact Hg]. by intros key Hk.
      + intros pd' c [= <-]. apply Hf.
    - rewrite watch_asset_skip by done. exists w. split; [done|].
      split; [apply grows_refl|]. by intros pd c [=]. }
  simpl. destruct (IH w1) as (w' & -> & Hg & Hf).
  exists w'. split; [done|]. split.
  - eapply grows_trans.
    + eapply grows_weaken; [|exact Hg1].
      intros key [H1 H2]. exists k0, cfg0. split; [left|done].
    + eapply grows_weaken; [|exact Hg].
      intros key (k & cfg & H1 & H2). exists k, cfg. split; [by right|done].
  - intros k cfg pd c Hin Hpd H1 H2 H3.
    apply elem_of_cons in Hin as [Heq|Hin].
    + injection Heq as -> ->. eapply grows_fired; [exact Hg|]. by eapply Hf1.
    + by eapply Hf.
Qed.

(** A cycle in which an instrument fails is the cycle of the other
    instruments. *)
Lemma watch_loop_skips config rate yf l1 l2 k cfg w :
  get_asset_price k cfg rate yf = None →
  watch_loop config rate yf (l1 ++ (k, cfg) :: l2) w =
    watch_loop config rate yf (l1 ++ l2) w.
Proof.
  intros H. unfold watch_loop. rewrite !for_each_app.
  destruct (for_each _ l1 w) as [w1|]; [|done].
  unfold mbind, result_bind, Py.bind. cbn [for_each].
  by rewrite watch_asset_skip.
Qed.

(** *** One cycle *)

Lemma intraday_move_Some config yf k cfg c :
  intraday_move config yf (k, cfg) = Some c →
  ∃ pd,
    get_asset_price k cfg (get_gbp_usd_rate yf) yf = Some pd ∧
    ne (open_gbp pd) 0 = true ∧
    change_pct_of (price_gbp pd) (open_gbp pd) = Ok c ∧
    ge (abs c) (threshold_for config k) = true.
Proof.
  unfold intraday_move.
  destruct (get_asset_price _ _ _ _) as [pd|]; [|done].
  destruct (ne (open_gbp pd) 0) eqn:E1; [|done].
  destruct (change_pct_of _ _) as [c'|] eqn:E2; [|done].
  destruct (ge (abs c') _) eqn:E3; [|done].
  intros [= <-]. by exists pd.
Qed.

(** What one run of [cmd_watch] does to the alert store. *)
Lemma cmd_watch_spec config yf file now_load now_save :
  ∃ r,
    cmd_watch config yf file now_load now_save = Ok r ∧
    alerts_file r =
      mkstate (Some (strftime_ymd now_save))
              (fired (load_alerts_state file now_load) ++ watch_log r) ∧
    NoDup (watch_log r) ∧
    (∀ key, key ∈ watch_log r →
       (key ∉ fired (load_alerts_state file now_load)) ∧
       ∃ k cfg, (k, cfg) ∈ ASSETS ∧
                get_asset_price k cfg (get_gbp_usd_rate yf) yf ≠ None ∧
                key ∈ alert_keys k) ∧
    (∃ texts, length texts = length (watch_log r) ∧
              watch_message r = if empty texts then None else Some texts) ∧
    (∀ a c, a ∈ ASSETS → intraday_move config yf a = Some c →
            intraday_key a.1 c ∈ fired (alerts_file r)).
Proof.
  unfold cmd_watch.
  destruct (watch_loop_spec config (get_gbp_usd_rate yf) yf ASSETS
              (mkwatch (load_alerts_state file now_load) [] []))
    as (w & -> & (new & texts & Hs & Ha & Ht & Hl & Hd & Hn) & Hf).
  cbn [state alerts_to_send triggered app] in Hs, Ha, Ht.
  simpl. eexists. split; [reflexivity|].
  cbn [alerts_file watch_log watch_message].
  unfold save_alerts_state. rewrite Hs, Ha, Ht. cbn [fired].
  split; [done|]. split; [done|]. split; [exact Hn|]. split; [by exists texts|].
  intros [k cfg] c Hin Hmove.
  apply intraday_move_Some in Hmove as (pd & H1 & H2 & H3 & H4).
  specialize (Hf k cfg pd c Hin H1 H2 H3 H4). by rewrite Hs in Hf.
Qed.

(** *** The cycles of one day *)

Lemma keys_triggered_cons r rs :
  keys_triggered (Ok r :: rs) = watch_log r ++ keys_triggered rs.
Proof. done. Qed.

Lemma watch_cycles_spec config today cycles file :
  let start := fired (load_alerts_state file today) in
  let results := watch_cycles config today cycles file in
  NoDup (keys_triggered results) ∧
  (∀ key, key ∈ keys_triggered results → key ∉ start) ∧
  (∀ i yf a c,
     cycles !! i = Some yf → a ∈ ASSETS →
     intraday_move config yf a = Some c →
     intraday_key a.1 c ∈ start ∨
     intraday_key a.1 c ∈ keys_triggered results) ∧
  Forall (λ r, ∃ res texts,
            r = Ok res ∧ length texts = length (watch_log res) ∧
            watch_message res = if empty texts then None else Some texts)
         results.
Proof.
  revert file. induction cycles as [|yf cycles IH]; intros file start results.
  { split; [apply NoDup_nil_2|]. split; [by intros ? ?%elem_of_nil|].
    split; [done|constructor]. }
  unfold results. cbn [watch_cycles].
  destruct (cmd_watch_spec config yf file today today)
    as (r & -> & Hfile & Hnd & Hnew & (texts & Htexts) & Hmove).
  specialize (IH (Some (alerts_file r))).
  rewrite load_alerts_state_same_day in IH by by rewrite Hfile.
  destruct IH as (IHnd & IHnew & IHmove & IHok).
  assert (fired (alerts_file r) = start ++ watch_log r) as Hfired
    by by rewrite Hfile.
  rewrite Hfired in IHnew, IHmove.
  rewrite keys_triggered_cons.
  split; [|split; [|split]].
  - apply NoDup_app. split; [done|]. split; [|done].
    intros key H1 H2. apply (IHnew key H2). apply elem_of_app. by right.
  - intros key [H|H]%elem_of_app.
    + by apply Hnew.
    + intros Hs. apply (IHnew key H). apply elem_of_app. by left.
  - intros i yf' a c Hi Ha Hm. destruct i as [|i].
    + injection Hi as <-. specialize (Hmove a c Ha Hm).
      rewrite Hfired in Hmove.
      apply elem_of_app in Hmove as [?|?]; [by left|].
      right. apply elem_of_app. by left.
    + destruct (IHmove i yf' a c Hi Ha Hm) as [H|H].
      * apply elem_of_app in H as [?|?]; [by left|].
        right. apply elem_of_app. by left.
      * right. apply elem_of_app. by right.
  - constructor; [by exists r, texts|done].
Qed.

(** C1. The key of a rise and the key of a fall of one instrument differ.
    Every watch cycle of a calendar day completes and queues one alert text
    per key it logs.  Over the cycles of the day no key is logged twice, and
    none that the day's first load already held; on a day that starts with
    an empty fired set, every intraday move that meets its threshold in some
    cycle has its key logged exactly once in the day. *)
Theorem intraday_alerts_fire_once_per_day config today cycles file :
  let results := watch_cycles config today cycles file in
  (∀ k c1 c2, gt c1 0 = true → gt c2 0 = false →
     intraday_key k c1 ≠ intraday_key k c2)
  ∧ Forall (λ r, ∃ res texts,
              r = Ok res ∧ length texts = length (watch_log res) ∧
              watch_message res = if empty texts then None else Some texts)
           results
  ∧ NoDup (keys_triggered results)
  ∧ (∀ key, key ∈ keys_triggered results →
       key ∉ fired (load_alerts_state file today))
  ∧ (fired (load_alerts_state file today) = [] →
     ∀ i yf a c,
       cycles !! i = Some yf → a ∈ ASSETS →
       intraday_move config yf a = Some c →
       count_occ string_dec (keys_triggered results) (intraday_key a.1 c)
         = 1%nat).
Proof.
  intros results.
  destruct (watch_cycles_spec config today cycles file)
    as (Hnd & Hnew & Hmove & Hok).
  split; [apply intraday_key_sign|]. split; [done|].
  split; [done|]. split; [done|].
  intros Hstart i yf a c Hi Ha Hm.
  destruct (Hmove i yf a c Hi Ha Hm) as [H|H].
  - rewrite Hstart in H. by apply elem_of_nil in H.
  - apply NoDup_ListNoDup in Hnd.
    apply (proj1 (List.NoDup_count_occ' string_dec _) Hnd).
    by apply list_elem_of_In.
Qed.

Lemma intraday_alerts_fire_once_per_day_witness :
  let config := mkconfig None None in
  let today := mkdatetime 2024 3 1 in
  let iswd := ("iswd", mkasset "ISWD.L" "ISWD" "📈" "GBP" "") in
  let quotes (close : float) : provider := λ t _,
    if String.eqb t "ISWD.L" then Ok [mkbar 100 100; mkbar 100 close]%float
    else Raise ProviderError in
  let rise := quotes 200%float in
  let fall := quotes 50%float in
  let results := watch_cycles config today [rise; rise; fall; fall; rise] None in
  keys_triggered results = ["intraday_iswd_+"; "intraday_iswd_-"]
  ∧ count_occ string_dec (keys_triggered results) "intraday_iswd_+" = 1%nat
  ∧ count_occ string_dec (keys_triggered results) "intraday_iswd_-" = 1%nat.
Proof.
  intros config today iswd quotes rise fall results.
  destruct (intraday_alerts_fire_once_per_day config today
              [rise; rise; fall; fall; rise] None) as (_ & _ & _ & _ & H).
  split; [by vm_compute|]. split.
  - apply (H eq_refl 0%nat rise iswd 100%float);
      [reflexivity|right; left|by vm_compute].
  - apply (H eq_refl 2%nat fall iswd (-50)%float);
      [reflexivity|right; left|by vm_compute].
Defined.

(** C10. With no alert-state file the load returns an empty fired set
    whose date is null, not today's; the date is put on by the save, which
    overwrites the date field with the clock's date whatever it held, as at
    the end of a watch cycle that started without a file. *)
Theorem missing_alert_file_loads_undated :
  (∀ now, load_alerts_state None now = mkstate None [])
  ∧ (∀ now, state_date (load_alerts_state None now) ≠ Some (strftime_ymd now))
  ∧ (∀ st now,
       save_alerts_state st now = mkstate (Some (strftime_ymd now)) (fired st))
  ∧ (∀ config yf now_load now_save,
       ∃ r, cmd_watch config yf None now_load now_save = Ok r ∧
            state_date (alerts_file r) = Some (strftime_ymd now_save)).
Proof.
  split; [done|]. split; [done|]. split; [done|].
  intros config yf now_load now_save.
  destruct (cmd_watch_spec config yf None now_load now_save)
    as (r & Hr & Hfile & _).
  exists r. split; [done|]. by rewrite Hfile.
Qed.

(** ** A failed instrument in a cycle *)

(** What one run of [cmd_summary] sends and writes. *)
Lemma cmd_summary_spec yf file now now_save :
  let rate := get_gbp_usd_rate yf in
  let h := load_history file in
  let today := strftime_ymd now in
  ∃ s more tail r,
    for_each (summary_asset rate yf h) ASSETS
      (mksummary_state [Title; DateLine now; Blank] ∅) = Ok s ∧
    (∀ k cfg, (k, cfg) ∈ ASSETS →
       match get_asset_price k cfg rate yf with
       | None => Unavailable (name cfg) ∈ more
       | Some _ => Header (emoji cfg) (name cfg) ∈ more
       end) ∧
    cmd_summary yf file now now_save = Ok r ∧
    summary_message r = [Title; DateLine now; Blank] ++ more ++ tail ∧
    history_file r =
      if (size (day_prices s) =? 0)%nat then file
      else Some (save_history now_save
                   (mkhistory
                      (List.filter (λ e, str_ne (date e) today) (entries h)
                         ++ [mkentry today (day_prices s) rate]))).
Proof.
  intros rate h today. unfold cmd_summary. fold rate h today.
  destruct (summary_loop_spec rate yf h ASSETS
              (mksummary_state [Title; DateLine now; Blank] ∅))
    as (s & more & -> & Hl & Hmark & _).
  cbn [lines] in Hl.
  exists s, more,
    (match rate with
     | Some r => if ne r 0 then [RateLine r] else []
     | None => []
     end).
  eexists. split; [done|]. split; [done|]. simpl. split; [reflexivity|].
  cbn [summary_message history_file]. split.
  - rewrite Hl. destruct rate as [r|]; [destruct (ne r 0)|];
      by rewrite ?app_nil_r, <- ?(assoc_L (++)).
  - by destruct (size (day_prices s) =? 0)%nat.
Qed.

(** After a write, the only entry dated today is the one just written. *)
Lemma written_today_entry now_save today h new e :
  date new = today →
  e ∈ entries (save_history now_save
                 (mkhistory
                    (List.filter (λ e, str_ne (date e) today) (entries h)
                       ++ [new]))) →
  date e = today → e = new.
Proof.
  intros Hnew He Hd. unfold save_history in He. cbn [entries] in He.
  apply list_elem_of_In, List.filter_In in He as [He _].
  apply List.in_app_iff in He as [He|He].
  - apply List.filter_In in He as [_ He]. unfold str_ne in He.
    by rewrite Hd, String.eqb_refl in He.
  - by destruct He as [<-|[]].
Qed.

(** C8. When the price of one instrument cannot be obtained, neither cycle
    is cut short.  The watch cycle completes as the cycle of the other
    instruments: none of the failed instrument's alert keys is logged, and
    every move of another instrument that meets its threshold is in the
    fired set afterwards.  The summary completes too: it carries the
    data-unavailable line of the failed instrument, writes no price for it
    in today's entry, and shows and records every instrument whose price was
    obtained. *)
Theorem failed_instrument_is_skipped config yf k cfg :
  (k, cfg) ∈ ASSETS →
  get_asset_price k cfg (get_gbp_usd_rate yf) yf = None →
  (∀ file now_load now_save,
     ∃ r, cmd_watch config yf file now_load now_save = Ok r ∧
          (∀ key, key ∈ alert_keys k → key ∉ watch_log r) ∧
          (∀ a c, a ∈ ASSETS → intraday_move config yf a = Some c →
                  intraday_key a.1 c ∈ fired (alerts_file r)))
  ∧ (∀ l1 l2 w,
       watch_loop config (get_gbp_usd_rate yf) yf (l1 ++ (k, cfg) :: l2) w =
         watch_loop config (get_gbp_usd_rate yf) yf (l1 ++ l2) w)
  ∧ (∀ file now now_save,
     ∃ r, cmd_summary yf file now now_save = Ok r ∧
          Unavailable (name cfg) ∈ summary_message r ∧
          (history_file r = file ∨
           ∃ h', history_file r = Some h' ∧
                 ∀ e, e ∈ entries h' → date e = strftime_ymd now →
                      prices e !! k = None) ∧
          (∀ k' cfg' pd,
             (k', cfg') ∈ ASSETS →
             get_asset_price k' cfg' (get_gbp_usd_rate yf) yf = Some pd →
             Header (emoji cfg') (name cfg') ∈ summary_message r ∧
             ∃ h', history_file r = Some h' ∧
                   ∀ e, e ∈ entries h' → date e = strftime_ymd now →
                        prices e !! k' = Some (Some (price_gbp pd)))).
Proof.
  intros Hin Hfail. split; [|split].
  - intros file now_load now_save.
    destruct (cmd_watch_spec config yf file now_load now_save)
      as (r & Hr & _ & _ & Hnew & _ & Hmove).
    exists r. split; [done|]. split; [|done].
    intros key Hkey Hlog.
    destruct (Hnew key Hlog) as (_ & k' & cfg' & Hin' & Hok & Hkey').
    pose proof (alert_keys_inj key k k' Hkey Hkey') as <-.
    by rewrite (NoDup_fst_unique ASSETS k cfg' cfg ASSETS_NoDup Hin' Hin)
      in Hok.
  - intros l1 l2 w. by apply watch_loop_skips.
  - intros file now now_save.
    destruct (cmd_summary_spec yf file now now_save)
      as (s & more & tail & r & Hloop & Hmark & Hr & Hmsg & Hfile).
    pose proof (λ k cfg,
      summary_prices_lookup _ _ _ _
        (mksummary_state [Title; DateLine now; Blank] ∅) s k cfg
        ASSETS_NoDup eq_refl Hloop) as Hprices.
    exists r. split; [done|]. split; [|split].
    + rewrite Hmsg. specialize (Hmark k cfg Hin). rewrite Hfail in Hmark.
      apply elem_of_app. right. apply elem_of_app. by left.
    + destruct (size (day_prices s) =? 0)%nat; [by left|].
      right. eexists. split; [exact Hfile|]. intros e He Hd.
      rewrite (written_today_entry _ _ _ _ e eq_refl He Hd). cbn [prices].
      by rewrite (Hprices k cfg Hin), Hfail.
    + intros k' cfg' pd Hin' Hpd. split.
      * rewrite Hmsg. specialize (Hmark k' cfg' Hin'). rewrite Hpd in Hmark.
        apply elem_of_app. right. apply elem_of_app. by left.
      * specialize (Hprices k' cfg' Hin'). rewrite Hpd in Hprices.
        destruct (Nat.eqb_spec (size (day_prices s)) 0) as [Hz|_].
        { apply map_size_empty_iff in Hz.
          by rewrite Hz, lookup_empty in Hprices. }
        eexists. split; [exact Hfile|]. intros e He Hd.
        by rewrite (written_today_entry _ _ _ _ e eq_refl He Hd).
Qed.

Lemma failed_instrument_is_skipped_witness :
  let config := mkconfig None None in
  let now := mkdatetime 2024 3 1 in
  let yf : provider := λ t _,
    if String.eqb t "GBPUSD=X" then Ok [mkbar 1.25 1.25]%float
    else if String.eqb t "ISWD.L" then Ok [mkbar 100 100; mkbar 100 200]%float
    else Raise ProviderError in
  (∃ r, cmd_watch config yf None now now = Ok r ∧
        watch_log r = ["intraday_iswd_+"] ∧
        "intraday_gold_gbp_+" ∉ watch_log r)
  ∧ (∃ r, cmd_summary yf None now now = Ok r ∧
          Unavailable "Gold" ∈ summary_message r ∧
          Header "📈" "ISWD" ∈ summary_message r).
Proof.
  intros config now yf.
  destruct (failed_instrument_is_skipped config yf "gold_gbp"
              (mkasset "GC=F" "Gold" "🥇" "USD" "per oz"))
    as (Hwatch & _ & Hsummary); [left|reflexivity|].
  split.
  - destruct (Hwatch None now now) as (r & Hr & Hkeys & _).
    exists r. split; [done|]. split.
    + vm_compute in Hr. by injection Hr as <-.
    + apply Hkeys. left.
  - destruct (Hsummary None now now) as (r & Hr & Hgold & _ & Hothers).
    exists r. split; [done|]. split; [done|].
    by apply (Hothers "iswd" (mkasset "ISWD.L" "ISWD" "📈" "GBP" "")
                (mkprice 2 1 1 (Some 2.5%float) (Some 1.25%float)
                   (Some 1.25%float)));
      [right; left|by vm_compute].
Defined.

(** * Further properties *)

(** ** Exchange rate and quote normalizer *)

(** X1. The exchange rate is the close of the most recent row of the
    provider's answer; an exception in the provider or an answer without
    rows gives no rate. *)
Theorem exchange_rate_is_last_close (yf : provider) :
  (∀ e, yf "GBPUSD=X" "1d" = Raise e → get_gbp_usd_rate yf = None)
  ∧ (yf "GBPUSD=X" "1d" = Ok [] → get_gbp_usd_rate yf = None)
  ∧ (∀ data row,
       yf "GBPUSD=X" "1d" = Ok data → last data = Some row →
       get_gbp_usd_rate yf = Some (Close row)).
Proof.
  unfold get_gbp_usd_rate. split; [by intros e ->|]. split; [by intros ->|].
  intros data row -> Hl. simpl.
  destruct data as [|b data]; [done|]. cbn [empty].
  change (mbind ?f ?m) with (Py.bind m f).
  by rewrite (getitem_last _ _ Hl).
Qed.

Lemma exchange_rate_is_last_close_witness :
  get_gbp_usd_rate (λ _ _, Ok [mkbar 1.5 1.5; mkbar 1.5 1.25]%float)
    = Some 1.25%float.
Proof.
  by apply (proj2 (proj2 (exchange_rate_is_last_close _))
              [mkbar 1.5 1.5; mkbar 1.5 1.25]%float (mkbar 1.5 1.25)).
Defined.

Lemma truediv_by_zero a b :
  eq b 0 = true → truediv a b = Raise ZeroDivisionError.
Proof. unfold truediv, eq. by intros ->. Qed.

Lemma pence_to_pounds_ok ticker_symbol raw :
  ∃ raw', pence_to_pounds ticker_symbol raw = Ok raw'.
Proof.
  destruct raw as [[c o] p]. unfold pence_to_pounds.
  destruct (_ && _); [rewrite !truediv_100|]; simpl; eauto.
Qed.

(** The currency step fails only for a USD-native instrument, on a missing
    or zero rate. *)
Lemma both_currencies_unavailable native rate raw :
  try_except (both_currencies native rate raw) (λ _, None) = None ↔
  native = "USD" ∧ (rate = None ∨ ∃ r, rate = Some r ∧ eq r 0 = true).
Proof.
  destruct raw as [[c o] p]. unfold both_currencies.
  destruct (String.eqb_spec native "USD") as [->|Hne].
  - destruct rate as [r|]; [|by split; [intros _; split; [|left]|]].
    destruct (eq r 0) eqn:Hr.
    + rewrite !truediv_by_zero by done. simpl. split; [|done].
      intros _. split; [done|]. right. by exists r.
    + rewrite !truediv_nonzero by done. simpl. split; [done|].
      intros [_ [[=]|(r' & [= <-] & Hr')]]. congruence.
  - split; [by destruct rate|]. by intros [? _].
Qed.

(** On an answer with rows, [get_asset_price] is the currency step on the
    pence-corrected raw quote. *)
Lemma get_asset_price_rows k cfg rate (yf : provider) data :
  yf (ticker cfg) "2d" = Ok data → data ≠ [] →
  ∃ raw raw',
    raw_quote data = Ok raw ∧
    pence_to_pounds (ticker cfg) raw = Ok raw' ∧
    get_asset_price k cfg rate yf =
      try_except (both_currencies (native_currency cfg) rate raw') (λ _, None).
Proof.
  intros Hyf Hd. destruct (raw_quote_nonempty data Hd) as [raw Hraw].
  destruct (pence_to_pounds_ok (ticker cfg) raw) as [raw' Hp].
  exists raw, raw'. split; [done|]. split; [done|].
  rewrite (get_asset_price_stages _ _ _ _ _ _ Hyf Hraw). by rewrite Hp.
Qed.

(** X2. An instrument is unavailable in exactly three cases: the provider
    raised, the provider answered without rows, or the instrument is
    USD-native and the exchange rate is missing or zero (the division by a
    zero rate raises and the exception is swallowed). *)
Theorem quote_unavailable_iff k cfg rate (yf : provider) :
  get_asset_price k cfg rate yf = None ↔
    (∃ e, yf (ticker cfg) "2d" = Raise e) ∨
    yf (ticker cfg) "2d" = Ok [] ∨
    (native_currency cfg = "USD" ∧
     (rate = None ∨ ∃ r, rate = Some r ∧ eq r 0 = true)).
Proof.
  destruct (yf (ticker cfg) "2d") as [data|e] eqn:Hyf.
  - destruct data as [|b data].
    + unfold get_asset_price. rewrite Hyf. simpl. split; [|done].
      intros _. right. by left.
    + destruct (get_asset_price_rows k cfg rate yf (b :: data) Hyf)
        as (raw & raw' & _ & _ & ->); [done|].
      rewrite both_currencies_unavailable. split; [by right; right|].
      by intros [[? [=]]|[[=]|?]].
  - unfold get_asset_price. rewrite Hyf. simpl. split; [|done].
    intros _. left. by exists e.
Qed.

Lemma pence_to_pounds_same ticker_symbol c o :
  ∃ c' o', pence_to_pounds ticker_symbol (c, o, o) = Ok (c', o', o').
Proof.
  unfold pence_to_pounds.
  destruct (endswith ticker_symbol ".L" && gt c PENCE_THRESHOLD);
    [rewrite !truediv_100|]; simpl; eauto.
Qed.

Lemma both_currencies_same native rate c o pd :
  try_except (both_currencies native rate (c, o, o)) (λ _, None) = Some pd →
  prev_close_gbp pd = open_gbp pd ∧ prev_close_usd pd = open_usd pd.
Proof.
  unfold both_currencies.
  destruct (String.eqb native "USD"), rate as [r|];
    try (by intros [= <-]).
  destruct (eq r 0) eqn:Hr.
  - by rewrite !truediv_by_zero by done.
  - rewrite !truediv_nonzero by done. by intros [= <-].
Qed.

(** X3. When the provider answers with a single row there is no previous
    close, and the row's open stands in for it: the normalized previous
    close equals the normalized open, in both currencies. *)
Theorem single_row_previous_close_is_open k cfg rate (yf : provider) row pd :
  yf (ticker cfg) "2d" = Ok [row] →
  get_asset_price k cfg rate yf = Some pd →
  prev_close_gbp pd = open_gbp pd ∧ prev_close_usd pd = open_usd pd.
Proof.
  intros Hyf.
  rewrite (get_asset_price_stages k cfg rate yf [row]
             (Close row, Open row, Open row) Hyf eq_refl).
  destruct (pence_to_pounds_same (ticker cfg) (Close row) (Open row))
    as (c' & o' & ->).
  apply both_currencies_same.
Qed.

Lemma single_row_previous_close_is_open_witness :
  ∃ pd,
    get_asset_price "iswd" (mkasset "ISWD.L" "ISWD" "" "GBP" "")
      (Some 1.25%float) (λ _ _, Ok [mkbar 640 650]%float) = Some pd ∧
    prev_close_gbp pd = open_gbp pd ∧ prev_close_usd pd = open_usd pd.
Proof.
  eexists. split; [reflexivity|].
  by apply (single_row_previous_close_is_open "iswd"
              (mkasset "ISWD.L" "ISWD" "" "GBP" "") (Some 1.25%float)
              (λ _ _, Ok [mkbar 640 650]%float) (mkbar 640 650)).
Defined.

(** X4. Every canonical price keeps its two currencies in step.  For a
    GBP-native instrument the USD fields are the GBP fields times the rate
    (and absent without a rate); for a USD-native instrument there is a
    rate, it is not zero, and the GBP fields are the USD fields divided by
    it. *)
Theorem canonical_price_currencies k cfg rate (yf : provider) pd :
  get_asset_price k cfg rate yf = Some pd →
  (native_currency cfg ≠ "USD" →
     price_usd pd = (λ r, price_gbp pd * r)%float <$> rate ∧
     open_usd pd = (λ r, open_gbp pd * r)%float <$> rate ∧
     prev_close_usd pd = (λ r, prev_close_gbp pd * r)%float <$> rate)
  ∧ (native_currency cfg = "USD" →
     ∃ r usd open_usd' prev_usd,
       rate = Some r ∧ eq r 0 = false ∧
       price_usd pd = Some usd ∧ price_gbp pd = (usd / r)%float ∧
       open_usd pd = Some open_usd' ∧ open_gbp pd = (open_usd' / r)%float ∧
       prev_close_usd pd = Some prev_usd ∧
       prev_close_gbp pd = (prev_usd / r)%float).
Proof.
  intros Hpd.
  destruct (yf (ticker cfg) "2d") as [data|e] eqn:Hyf;
    [|by unfold get_asset_price in Hpd; rewrite Hyf in Hpd].
  destruct data as [|b data];
    [by unfold get_asset_price in Hpd; rewrite Hyf in Hpd|].
  destruct (get_asset_price_rows k cfg rate yf (b :: data) Hyf)
    as (raw & [[c o] p] & _ & _ & Heq); [done|].
  rewrite Heq in Hpd. unfold both_currencies in Hpd.
  destruct (String.eqb_spec (native_currency cfg) "USD") as [HU|HU].
  - split; [done|]. intros _. destruct rate as [r|]; [|done].
    destruct (eq r 0) eqn:Hr.
    + by rewrite !truediv_by_zero in Hpd by done.
    + rewrite !truediv_nonzero in Hpd by done. injection Hpd as <-.
      by exists r, c, o, p.
  - split; [|done]. intros _.
    destruct rate as [r|]; by injection Hpd as <-.
Qed.

Lemma canonical_price_currencies_witness :
  ∃ pd,
    get_asset_price "iswd" (mkasset "ISWD.L" "ISWD" "" "GBP" "")
      (Some 1.25%float) (λ _ _, Ok [mkbar 640 645; mkbar 648 650]%float)
      = Some pd ∧
    price_gbp pd = 6.5%float ∧ price_usd pd = Some 8.125%float.
Proof.
  eexists. split; [reflexivity|]. split; [reflexivity|].
  destruct (canonical_price_currencies "iswd"
              (mkasset "ISWD.L" "ISWD" "" "GBP" "") (Some 1.25%float)
              (λ _ _, Ok [mkbar 640 645; mkbar 648 650]%float) _ eq_refl)
    as [H _].
  destruct (H ltac:(discriminate)) as (-> & _). reflexivity.
Defined.

(** X5. A ticker that does not end in [.L] is never rescaled, however
    large its raw value: the currency step sees the raw quote as is. *)
Theorem other_markets_are_not_rescaled k cfg rate (yf : provider) data raw :
  endswith (ticker cfg) ".L" = false →
  yf (ticker cfg) "2d" = Ok data →
  raw_quote data = Ok raw →
  get_asset_price k cfg rate yf =
    try_except (both_currencies (native_currency cfg) rate raw) (λ _, None).
Proof.
  intros HL Hyf Hraw. rewrite (get_asset_price_stages _ _ _ _ _ _ Hyf Hraw).
  destruct raw as [[c o] p]. unfold pence_to_pounds. by rewrite HL.
Qed.

Lemma other_markets_are_not_rescaled_witness :
  get_asset_price "gold_gbp" (mkasset "GC=F" "Gold" "" "USD" "per oz")
    (Some 1.25%float) (λ _ _, Ok [mkbar 2000 2000; mkbar 2000 2500]%float)
  = Some (mkprice 2000 1600 1600 (Some 2500%float) (Some 2000%float)
            (Some 2000%float)).
Proof.
  by rewrite (other_markets_are_not_rescaled "gold_gbp"
                (mkasset "GC=F" "Gold" "" "USD" "per oz") (Some 1.25%float)
                (λ _ _, Ok [mkbar 2000 2000; mkbar 2000 2500]%float)
                [mkbar 2000 2000; mkbar 2000 2500]%float
                (2500, 2000, 2000)%float).
Defined.

(** ** Alert keys and watch cycles *)

(** X6. No two alert conditions share a key: the four keys of an instrument
    are pairwise different, and instruments with different identifiers have
    no key in common, whatever the identifiers are. *)
Theorem alert_keys_never_collide :
  (∀ k, NoDup (alert_keys k))
  ∧ (∀ k1 k2 key, key ∈ alert_keys k1 → key ∈ alert_keys k2 → k1 = k2).
Proof.
  split; [|intros k1 k2 key; apply alert_keys_inj].
  intros k. unfold alert_keys, above_key, below_key.
  repeat (apply NoDup_cons; split); try apply NoDup_nil_2;
    rewrite ?elem_of_cons, ?elem_of_nil;
    intros H; repeat destruct H as [H|H]; try done;
    try (simpl in H; discriminate).
  - do 2 apply string_append_inj_l in H. discriminate.
Qed.

Lemma due_keys_alert_keys config yf k cfg key :
  key ∈ due_keys config yf (k, cfg) → key ∈ alert_keys k.
Proof.
  unfold due_keys.
  destruct (get_asset_price _ _ _ _) as [pd|]; [|by intros ?%elem_of_nil].
  rewrite !elem_of_app. intros [H|[H|H]].
  - destruct (intraday_move _ _ _) as [c|]; [|by apply elem_of_nil in H].
    apply list_elem_of_singleton in H as ->. apply intraday_key_alert_keys.
  - destruct (above _) as [a|]; [|by apply elem_of_nil in H].
    destruct (ge _ a); [|by apply elem_of_nil in H].
    apply list_elem_of_singleton in H as ->.
    unfold alert_keys. do 2 right. left.
  - destruct (below _) as [b|]; [|by apply elem_of_nil in H].
    destruct (le _ b); [|by apply elem_of_nil in H].
    apply list_elem_of_singleton in H as ->.
    unfold alert_keys. do 3 right. left.
Qed.

(** One optional alert: fired when its condition holds. *)
Lemma fire_if_grows (cond : bool) key text w :
  let w' := if cond then fire_once key text w else w in
  let due := if cond then [key] else [] in
  grows (λ x, x ∈ due) w w' ∧ (∀ x, x ∈ due → x ∈ fired (state w')).
Proof.
  destruct cond; simpl.
  - split; [apply fire_once_grows; left|].
    intros x ->%list_elem_of_singleton. apply fire_once_fired.
  - split; [apply grows_refl|]. by intros x ?%elem_of_nil.
Qed.

(** The step of one instrument fires the keys that are due for it, and no
    other. *)
Lemma watch_asset_due config yf w k cfg :
  let ic := default (mkintraday None None) (intraday_alerts_of config) in
  ∃ w',
    watch_asset (default 2%float (default_threshold_pct ic))
      (default ∅ (thresholds ic)) (default ∅ (price_alerts_of config))
      (get_gbp_usd_rate yf) yf w (k, cfg) = Ok w' ∧
    grows (λ key, key ∈ due_keys config yf (k, cfg)) w w' ∧
    (∀ key, key ∈ due_keys config yf (k, cfg) → key ∈ fired (state w')).
Proof.
  intros ic. unfold watch_asset, due_keys, intraday_move.
  destruct (get_asset_price k cfg (get_gbp_usd_rate yf) yf) as [pd|] eqn:E.
  2:{ exists w. split; [done|]. split; [apply grows_refl|].
      by intros key ?%elem_of_nil. }
  fold ic. change (default (default 2%float (default_threshold_pct ic))
                     (default ∅ (thresholds ic) !! k))
    with (threshold_for config k).
  change (default (mkprice_alert None None)
            (default ∅ (price_alerts_of config) !! k))
    with (price_alerts_for config k).
  set (thr := threshold_for config k).
  set (apa := price_alerts_for config k).
  (* the intraday block *)
  set (intraday :=
         if ne (open_gbp pd) 0
         then match change_pct_of (price_gbp pd) (open_gbp pd) with
              | Ok c => if ge (abs c) thr then Some c else None
              | Raise _ => None
              end
         else None).
  assert (∃ w1,
    (if ne (open_gbp pd) 0
     then change_pct_of (price_gbp pd) (open_gbp pd)
            ≫= λ change_pct,
                 if ge (abs change_pct) thr
                 then Ok (fire_once (intraday_key k change_pct)
                            (IntradayAlert (gt change_pct 0) (name cfg)
                               (price_gbp pd) (open_gbp pd) change_pct thr) w)
                 else Ok w
     else Ok w) = Ok w1 ∧
    let due := match intraday with
               | Some c => [intraday_key k c]
               | None => []
               end in
    grows (λ x, x ∈ due) w w1 ∧ (∀ x, x ∈ due → x ∈ fired (state w1)))
    as (w1 & -> & Hg1 & Hf1).
  { unfold intraday. destruct (ne (open_gbp pd) 0) eqn:Hne.
    - rewrite change_pct_of_ok by done. simpl.
      set (c := ((price_gbp pd - open_gbp pd) / open_gbp pd * 100)%float).
      destruct (ge (abs c) thr); eexists; (split; [done|]).
      + apply (fire_if_grows true).
      + apply (fire_if_grows false (intraday_key k c)
                 (IntradayAlert false "" 0 0 0 0)).
    - exists w. split; [done|].
      apply (fire_if_grows false (intraday_key k 0)
               (IntradayAlert false "" 0 0 0 0)). }
  simpl in Hg1, Hf1. cbn [mbind result_bind Py.bind].
  (* the two absolute alerts *)
  set (due2 := match above apa with
               | Some a => if ge (price_gbp pd) a then [above_key k] else []
               | None => []
               end).
  set (w2 := match above apa with
             | Some a =>
                 if ge (price_gbp pd) a
                 then fire_once (above_key k)
                        (AboveAlert (name cfg) a (price_gbp pd)) w1
                 else w1
             | None => w1
             end).
  assert (grows (λ x, x ∈ due2) w1 w2 ∧
          (∀ x, x ∈ due2 → x ∈ fired (state w2))) as [Hg2 Hf2].
  { unfold due2, w2. destruct (above apa) as [a|].
    - apply (fire_if_grows (ge (price_gbp pd) a)).
    - apply (fire_if_grows false (above_key k) (AboveAlert "" 0 0)). }
  set (due3 := match below apa with
               | Some b => if le (price_gbp pd) b then [below_key k] else []
               | None => []
               end).
  set (w3 := match below apa with
             | Some b =>
                 if le (price_gbp pd) b
                 then fire_once (below_key k)
                        (BelowAlert (name cfg) b (price_gbp pd)) w2
                 else w2
             | None => w2
             end).
  assert (grows (λ x, x ∈ due3) w2 w3 ∧
          (∀ x, x ∈ due3 → x ∈ fired (state w3))) as [Hg3 Hf3].
  { unfold due3, w3. destruct (below apa) as [b|].
    - apply (fire_if_grows (le (price_gbp pd) b)).
    - apply (fire_if_grows false (below_key k) (BelowAlert "" 0 0)). }
  exists w3. split; [done|]. split.
  - eapply grows_trans; [|eapply grows_trans].
    + eapply grows_weaken; [|exact Hg1].
      intros x Hx. apply elem_of_app. by left.
    + eapply grows_weaken; [|exact Hg2].
      intros x Hx. apply elem_of_app. right. apply elem_of_app. by left.
    + eapply grows_weaken; [|exact Hg3].
      intros x Hx. apply elem_of_app. right. apply elem_of_app. by right.
  - intros key [H|[H|H]%elem_of_app]%elem_of_app.
    + eapply grows_fired; [exact Hg3|]. eapply grows_fired; [exact Hg2|].
      by apply Hf1.
    + eapply grows_fired; [exact Hg3|]. by apply Hf2.
    + by apply Hf3.
Qed.

Lemma watch_loop_due config yf l w :
  ∃ w',
    watch_loop config (get_gbp_usd_rate yf) yf l w = Ok w' ∧
    grows (λ key, ∃ a, a ∈ l ∧ key ∈ due_keys config yf a) w w' ∧
    (∀ a key, a ∈ l → key ∈ due_keys config yf a → key ∈ fired (state w')).
Proof.
  revert w. induction l as [|[k cfg] l IH]; intros w.
  { exists w. split; [done|]. split; [apply grows_refl|].
    by intros ? ? ?%elem_of_nil. }
  rewrite watch_loop_cons.
  destruct (watch_asset_due config yf w k cfg) as (w1 & H1 & Hg1 & Hf1).
  assert (watch_loop config (get_gbp_usd_rate yf) yf [(k, cfg)] w = Ok w1)
    as -> by (unfold watch_loop; cbn [for_each]; by rewrite H1).
  cbn [mbind result_bind Py.bind].
  destruct (IH w1) as (w' & -> & Hg & Hf).
  exists w'. split; [done|]. split.
  - eapply grows_trans.
    + eapply grows_weaken; [|exact Hg1].
      intros key Hk. exists (k, cfg). split; [left|done].
    + eapply grows_weaken; [|exact Hg].
      intros key (a & Ha & Hk). exists a. split; [by right|done].
  - intros a key [->|Ha]%elem_of_cons Hk.
    + eapply grows_fired; [exact Hg|]. by apply Hf1.
    + by eapply Hf.
Qed.

(** One run of [cmd_watch], read through the keys that are due. *)
Lemma cmd_watch_due config yf file now_load now_save :
  ∃ r texts,
    cmd_watch config yf file now_load now_save = Ok r ∧
    alerts_file r =
      mkstate (Some (strftime_ymd now_save))
              (fired (load_alerts_state file now_load) ++ watch_log r) ∧
    NoDup (watch_log r) ∧
    (∀ key, key ∈ watch_log r ↔
       (key ∉ fired (load_alerts_state file now_load)) ∧
       ∃ a, a ∈ ASSETS ∧ key ∈ due_keys config yf a) ∧
    length texts = length (watch_log r) ∧
    watch_message r = if empty texts then None else Some texts.
Proof.
  unfold cmd_watch.
  destruct (watch_loop_due config yf ASSETS
              (mkwatch (load_alerts_state file now_load) [] []))
    as (w & -> & (new & texts & Hs & Ha & Ht & Hl & Hd & Hn) & Hf).
  cbn [state alerts_to_send triggered app] in Hs, Ha, Ht, Hn.
  cbn [mbind result_bind Py.bind]. eexists _, texts. split; [reflexivity|].
  cbn [alerts_file watch_log watch_message].
  unfold save_alerts_state. rewrite Hs, Ha, Ht. cbn [fired].
  split; [done|]. split; [done|]. split; [|done].
  intros key. split; [apply Hn|].
  intros (Hnot & a & Hin & Hdue).
  specialize (Hf a key Hin Hdue). rewrite Hs in Hf. cbn [fired] in Hf.
  by apply elem_of_app in Hf as [?|?].
Qed.

(** X7. A watch cycle logs exactly the alert keys that are due in its
    market snapshot and were not in the fired list it loaded, each once:
    no alert fires without its condition, none fires again, and none that
    is due and new is missed. *)
Theorem cycle_logs_the_new_due_keys config yf file now_load now_save :
  ∃ r,
    cmd_watch config yf file now_load now_save = Ok r ∧
    NoDup (watch_log r) ∧
    (∀ key, key ∈ watch_log r ↔
       (key ∉ fired (load_alerts_state file now_load)) ∧
       ∃ a, a ∈ ASSETS ∧ key ∈ due_keys config yf a).
Proof.
  destruct (cmd_watch_due config yf file now_load now_save)
    as (r & texts & Hr & _ & Hnd & Hlog & _).
  by exists r.
Qed.

(** X8. Whether or not an alert fired, a watch cycle ends by writing the
    alert store: the keys it loaded, in their order, followed by the keys it
    logged, under the date of the save.  So a cycle never drops a key fired
    earlier the same day, and a reset made by the load is written back even
    when nothing fired. *)
Theorem cycle_appends_to_the_fired_list config yf file now_load now_save :
  ∃ r,
    cmd_watch config yf file now_load now_save = Ok r ∧
    alerts_file r =
      mkstate (Some (strftime_ymd now_save))
              (fired (load_alerts_state file now_load) ++ watch_log r) ∧
    (∀ st, file = Some st → state_date st = Some (strftime_ymd now_load) →
           fired (alerts_file r) = fired st ++ watch_log r) ∧
    (∀ st, file = Some st → state_date st ≠ Some (strftime_ymd now_load) →
           fired (alerts_file r) = watch_log r).
Proof.
  destruct (cmd_watch_due config yf file now_load now_save)
    as (r & texts & Hr & Hfile & _).
  exists r. split; [done|]. split; [done|]. rewrite Hfile. cbn [fired].
  split; intros st -> Hd.
  - by rewrite load_alerts_state_same_day.
  - by rewrite load_alerts_state_other_day.
Qed.

(** X9. A watch cycle sends a message exactly when it logged a key, and the
    message then holds one alert text per logged key. *)
Theorem message_sent_iff_alert_fired config yf file now_load now_save :
  ∃ r,
    cmd_watch config yf file now_load now_save = Ok r ∧
    (watch_message r = None ↔ watch_log r = []) ∧
    (∀ texts, watch_message r = Some texts →
              length texts = length (watch_log r)).
Proof.
  destruct (cmd_watch_due config yf file now_load now_save)
    as (r & texts & Hr & _ & _ & _ & Hlen & Hmsg).
  exists r. split; [done|]. rewrite Hmsg.
  destruct texts as [|t texts]; cbn [empty].
  - split; [|done]. split; [intros _|done].
    by destruct (watch_log r).
  - split; [|by intros ? [= <-]].
    split; [done|]. intros Hnil. by rewrite Hnil in Hlen.
Qed.

(** X10. The date on the alert store is the date of the save, not of the
    load.  A cycle that loads before midnight and saves after it therefore
    carries every key it loaded or logged into the new day: the first load
    of that day finds the store dated today and resets nothing. *)
Theorem cycle_across_midnight_carries_keys config yf file now_load now_save :
  ∃ r,
    cmd_watch config yf file now_load now_save = Ok r ∧
    load_alerts_state (Some (alerts_file r)) now_save = alerts_file r ∧
    (∀ key, key ∈ fired (load_alerts_state file now_load) ∨
            key ∈ watch_log r →
            key ∈ fired (load_alerts_state (Some (alerts_file r)) now_save)).
Proof.
  destruct (cmd_watch_due config yf file now_load now_save)
    as (r & texts & Hr & Hfile & _).
  exists r. split; [done|].
  assert (load_alerts_state (Some (alerts_file r)) now_save = alerts_file r)
    as Hload by (apply load_alerts_state_same_day; by rewrite Hfile).
  split; [done|]. intros key Hkey. rewrite Hload, Hfile. cbn [fired].
  by apply elem_of_app.
Qed.

(** The keys logged over the cycles of a day, against the keys due in
    them. *)
Lemma watch_cycles_due config today cycles file :
  let start := fired (load_alerts_state file today) in
  let results := watch_cycles config today cycles file in
  (∀ key, key ∈ keys_triggered results →
     ∃ i yf a, cycles !! i = Some yf ∧ a ∈ ASSETS ∧
               key ∈ due_keys config yf a) ∧
  (∀ i yf a key,
     cycles !! i = Some yf → a ∈ ASSETS → key ∈ due_keys config yf a →
     key ∈ start ∨ key ∈ keys_triggered results).
Proof.
  revert file. induction cycles as [|yf cycles IH]; intros file start results.
  { split; [by intros ? ?%elem_of_nil|done]. }
  unfold results. cbn [watch_cycles].
  destruct (cmd_watch_due config yf file today today)
    as (r & texts & -> & Hfile & _ & Hlog & _).
  specialize (IH (Some (alerts_file r))).
  rewrite load_alerts_state_same_day in IH by by rewrite Hfile.
  destruct IH as (IHlog & IHdue).
  assert (fired (alerts_file r) = start ++ watch_log r) as Hfired
    by by rewrite Hfile.
  rewrite Hfired in IHdue. rewrite keys_triggered_cons. split.
  - intros key [H|H]%elem_of_app.
    + apply Hlog in H as (_ & a & Ha & Hk). by exists 0%nat, yf, a.
    + destruct (IHlog key H) as (i & yf' & a & Hi & Ha & Hk).
      by exists (S i), yf', a.
  - intros i yf' a key Hi Ha Hk. destruct i as [|i].
    + injection Hi as <-.
      destruct (decide (key ∈ start)) as [|Hnot]; [by left|].
      right. apply elem_of_app. left. apply Hlog. split; [done|].
      by exists a.
    + destruct (IHdue i yf' a key Hi Ha Hk) as [H|H].
      * apply elem_of_app in H as [?|?]; [by left|].
        right. apply elem_of_app. by left.
      * right. apply elem_of_app. by right.
Qed.

(** X11. On a day that starts with an empty fired set, the alerts of the day
    are the conditions met during the day, each once: a key is logged in
    some cycle exactly when it is due in some cycle, for intraday moves and
    for the absolute [above] and [below] thresholds alike, and no key is
    logged twice. *)
Theorem alerts_of_the_day config today cycles file :
  fired (load_alerts_state file today) = [] →
  let results := watch_cycles config today cycles file in
  NoDup (keys_triggered results) ∧
  (∀ key, key ∈ keys_triggered results ↔
     ∃ i yf a, cycles !! i = Some yf ∧ a ∈ ASSETS ∧
               key ∈ due_keys config yf a) ∧
  (∀ i yf a key,
     cycles !! i = Some yf → a ∈ ASSETS → key ∈ due_keys config yf a →
     count_occ string_dec (keys_triggered results) key = 1%nat).
Proof.
  intros Hstart results.
  destruct (watch_cycles_spec config today cycles file) as (Hnd & _).
  destruct (watch_cycles_due config today cycles file) as (Hlog & Hdue).
  assert (∀ i yf a key,
    cycles !! i = Some yf → a ∈ ASSETS → key ∈ due_keys config yf a →
    key ∈ keys_triggered results) as Hin.
  { intros i yf a key Hi Ha Hk.
    destruct (Hdue i yf a key Hi Ha Hk) as [H|H]; [|done].
    rewrite Hstart in H. by apply elem_of_nil in H. }
  split; [done|]. split.
  - intros key. split; [apply Hlog|].
    intros (i & yf & a & Hi & Ha & Hk). by eapply Hin.
  - intros i yf a key Hi Ha Hk.
    apply NoDup_ListNoDup in Hnd.
    apply (proj1 (List.NoDup_count_occ' string_dec _) Hnd).
    apply list_elem_of_In. by eapply Hin.
Qed.

Lemma alerts_of_the_day_witness :
  let config :=
    mkconfig None (Some {[ "hbks" := mkprice_alert (Some 10%float) None ]}) in
  let today := mkdatetime 2024 3 1 in
  let quotes (close : float) : provider := λ t _,
    if String.eqb t "HBKS.L" then Ok [mkbar 10 10; mkbar close close]%float
    else Raise ProviderError in
  let results :=
    watch_cycles config today [quotes 10.5%float; quotes 10.75%float] None in
  keys_triggered results = ["price_above_hbks"]
  ∧ count_occ string_dec (keys_triggered results) "price_above_hbks" = 1%nat.
Proof.
  intros config today quotes results.
  destruct (alerts_of_the_day config today
              [quotes 10.5%float; quotes 10.75%float] None eq_refl)
    as (_ & _ & H).
  split; [by vm_compute|].
  apply (H 1%nat (quotes 10.75%float)
           ("hbks", mkasset "HBKS.L" "HBKS" "📊" "GBP" ""));
    [reflexivity|do 2 right; left|apply (bool_decide_unpack _); by vm_compute].
Defined.

(** ** Daily summary and history *)

Lemma summary_asset_lines rate yf h s a :
  ∃ s' more,
    summary_asset rate yf h s a = Ok s' ∧
    lines s' = lines s ++ heading_of rate yf a :: more ∧
    Forall (λ l, is_heading l = false ∧ is_rate_line l = false) more.
Proof.
  destruct a as [k cfg]. unfold summary_asset, heading_of. cbn [fst snd].
  destruct (get_asset_price k cfg rate yf) as [pd|].
  2:{ eexists _, [Blank]. split; [reflexivity|]. split; [done|].
      by repeat constructor. }
  destruct (calculate_trend_total h k 5 ltac:(lia)) as [weekly ->].
  destruct (calculate_trend_total h k 22 ltac:(lia)) as [monthly ->].
  assert (∃ pct,
    (if ne (prev_close_gbp pd) 0
     then truediv (price_gbp pd - prev_close_gbp pd)%float (prev_close_gbp pd)
            ≫= λ q, Ok (q * 100)%float
     else Ok 0%float) = Ok pct) as [pct ->].
  { unfold ne. destruct (PrimFloat.eqb (prev_close_gbp pd) 0) eqn:E; simpl;
      [eauto|].
    rewrite truediv_nonzero by done. simpl. eauto. }
  simpl.
  repeat case_match; eexists _, _; (split; [reflexivity|]); cbn [lines];
    rewrite <- ?(assoc_L (++)); (split; [reflexivity|]);
    by repeat constructor.
Qed.

Lemma summary_loop_lines rate yf h l s :
  ∃ s' more,
    for_each (summary_asset rate yf h) l s = Ok s' ∧
    lines s' = lines s ++ more ∧
    List.filter is_heading more = List.map (heading_of rate yf) l ∧
    Forall (λ l, is_rate_line l = false) more.
Proof.
  revert s. induction l as [|a l IH]; intros s.
  { exists s, []. by rewrite app_nil_r. }
  cbn [for_each].
  destruct (summary_asset_lines rate yf h s a) as (s1 & m1 & -> & Hl1 & Hm1).
  destruct (IH s1) as (s' & more & -> & Hl & Hh & Hr).
  exists s', (heading_of rate yf a :: m1 ++ more). split; [done|].
  split; [by rewrite Hl, Hl1, <- (assoc_L (++))|]. split.
  - cbn [List.filter List.map].
    assert (is_heading (heading_of rate yf a) = true) as ->
      by (unfold heading_of; by destruct (get_asset_price _ _ _ _)).
    f_equal. rewrite List.filter_app, Hh.
    rewrite (filter_none is_heading m1); [done|].
    intros x Hx. by apply (proj1 (Forall_forall _ _) Hm1 x Hx).
  - constructor.
    + unfold heading_of. by destruct (get_asset_price _ _ _ _).
    + apply Forall_app. split; [|done].
      eapply Forall_impl; [exact Hm1|]. by intros x [_ ?].
Qed.

(** The message of [cmd_summary], part by part. *)
Lemma cmd_summary_message yf file now now_save :
  ∃ r more,
    cmd_summary yf file now now_save = Ok r ∧
    summary_message r =
      [Title; DateLine now; Blank] ++ more ++
      match get_gbp_usd_rate yf with
      | Some rate => if ne rate 0 then [RateLine rate] else []
      | None => []
      end ∧
    List.filter is_heading more =
      List.map (heading_of (get_gbp_usd_rate yf) yf) ASSETS ∧
    Forall (λ l, is_rate_line l = false) more.
Proof.
  unfold cmd_summary.
  destruct (summary_loop_lines (get_gbp_usd_rate yf) yf (load_history file)
              ASSETS (mksummary_state [Title; DateLine now; Blank] ∅))
    as (s & more & -> & Hl & Hh & Hr).
  cbn [lines] in Hl. cbn [mbind result_bind Py.bind].
  eexists _, more. split; [reflexivity|]. cbn [summary_message].
  split; [|done]. rewrite Hl.
  destruct (get_gbp_usd_rate yf) as [rate|]; [destruct (ne rate 0)|];
    by rewrite ?app_nil_r, <- ?(assoc_L (++)).
Qed.

(** X12. The summary opens with the title, the date and a blank line, and
    then names every instrument exactly once, in the configured order:
    by its header when its price was obtained, by its data-unavailable line
    when not. *)
Theorem summary_names_every_instrument yf file now now_save :
  ∃ r rest,
    cmd_summary yf file now now_save = Ok r ∧
    summary_message r = [Title; DateLine now; Blank] ++ rest ∧
    List.filter is_heading (summary_message r) =
      List.map (heading_of (get_gbp_usd_rate yf) yf) ASSETS.
Proof.
  destruct (cmd_summary_message yf file now now_save)
    as (r & more & Hr & Hmsg & Hh & _).
  eexists r, _. split; [done|]. split; [exact Hmsg|].
  rewrite Hmsg, !List.filter_app, Hh. cbn [List.filter is_heading app].
  rewrite (filter_none is_heading); [by rewrite app_nil_r|].
  intros x Hx.
  destruct (get_gbp_usd_rate yf) as [rate|]; [destruct (ne rate 0)|];
    try by apply elem_of_nil in Hx.
  by apply list_elem_of_singleton in Hx as ->.
Qed.

Lemma get_asset_price_usd_no_rate k cfg (yf : provider) :
  native_currency cfg = "USD" → get_asset_price k cfg None yf = None.
Proof.
  intros Hn. unfold get_asset_price.
  destruct (yf (ticker cfg) "2d") as [data|e]; simpl; [|done].
  destruct (empty data); [done|].
  change (mbind ?f ?m) with (Py.bind m f).
  destruct (raw_quote data) as [raw|]; simpl; [|done].
  destruct (pence_to_pounds (ticker cfg) raw) as [[[c o] p]|]; simpl; [|done].
  by rewrite Hn.
Qed.

(** X13. The summary shows the exchange-rate line exactly when a rate was
    obtained and it is not zero, and then as its last line; when no rate was
    obtained, every USD-native instrument is reported as unavailable. *)
Theorem summary_and_the_exchange_rate yf file now now_save :
  ∃ r,
    cmd_summary yf file now now_save = Ok r ∧
    (∀ rate, RateLine rate ∈ summary_message r ↔
             get_gbp_usd_rate yf = Some rate ∧ ne rate 0 = true) ∧
    (∀ rate, RateLine rate ∈ summary_message r →
             last (summary_message r) = Some (RateLine rate)) ∧
    (get_gbp_usd_rate yf = None →
     ∀ k cfg, (k, cfg) ∈ ASSETS → native_currency cfg = "USD" →
              Unavailable (name cfg) ∈ summary_message r).
Proof.
  destruct (cmd_summary_message yf file now now_save)
    as (r & more & Hr & Hmsg & Hh & Hrate).
  exists r. split; [done|].
  assert (∀ rate, RateLine rate ∈ summary_message r ↔
                  get_gbp_usd_rate yf = Some rate ∧ ne rate 0 = true) as Hiff.
  { intros rate. rewrite Hmsg, !elem_of_app. split.
    - intros [H|[H|H]].
      + repeat (apply elem_of_cons in H as [[=]|H]). by apply elem_of_nil in H.
      + by apply (proj1 (Forall_forall _ _) Hrate) in H.
      + destruct (get_gbp_usd_rate yf) as [x|]; [|by apply elem_of_nil in H].
        destruct (ne x 0) eqn:E; [|by apply elem_of_nil in H].
        by apply list_elem_of_singleton in H as [= ->].
    - intros [-> ->]. do 2 right. left. }
  split; [exact Hiff|]. split.
  - intros rate [Hsome Hne]%Hiff. rewrite Hmsg, Hsome, Hne.
    by rewrite !(assoc_L (++)), last_snoc.
  - intros Hnone k cfg Hin Husd.
    assert (Unavailable (name cfg) ∈ List.filter is_heading (summary_message r))
      as Hu.
    { rewrite Hmsg, !List.filter_app, Hh. apply elem_of_app. right.
      apply elem_of_app. left. apply list_elem_of_In, List.in_map_iff.
      exists (k, cfg). split; [|by apply list_elem_of_In].
      unfold heading_of. cbn [fst snd].
      by rewrite Hnone, get_asset_price_usd_no_rate. }
    by apply list_elem_of_In, List.filter_In in Hu as [?%list_elem_of_In _].
Qed.

(** X14. A summary run in which no instrument's price was obtained leaves
    the history store as it found it: nothing is written, not even the
    trim.  A run that obtained a price writes the store, and, when today's
    date is a valid date later than day 90, today's entry is its last
    entry. *)
Theorem summary_writes_only_with_a_price yf file now now_save :
  ∃ r,
    cmd_summary yf file now now_save = Ok r ∧
    ((∀ k cfg, (k, cfg) ∈ ASSETS →
        get_asset_price k cfg (get_gbp_usd_rate yf) yf = None) →
     history_file r = file) ∧
    ((∃ k cfg, (k, cfg) ∈ ASSETS ∧
        get_asset_price k cfg (get_gbp_usd_rate yf) yf ≠ None) →
     ∃ h', history_file r = Some h' ∧
           (valid now → now_save = now →
            Z.of_nat HISTORY_DAYS < toordinal now →
            ∃ e, last (entries h') = Some e ∧ date e = strftime_ymd now ∧
                 gbp_usd_rate e = get_gbp_usd_rate yf)).
Proof.
  destruct (cmd_summary_spec yf file now now_save)
    as (s & more & tail & r & Hloop & _ & Hr & _ & Hfile).
  pose proof (λ k cfg,
    summary_prices_lookup _ _ _ _
      (mksummary_state [Title; DateLine now; Blank] ∅) s k cfg
      ASSETS_NoDup eq_refl Hloop) as Hprices.
  exists r. split; [done|]. split.
  - intros Hall.
    destruct (summary_loop_spec (get_gbp_usd_rate yf) yf (load_history file)
                ASSETS (mksummary_state [Title; DateLine now; Blank] ∅))
      as (s' & _ & Hloop' & _ & _ & Hnone & _).
    rewrite Hloop in Hloop'. injection Hloop' as <-.
    assert (day_prices s = ∅) as Hempty.
    { apply map_eq. intros k. rewrite lookup_empty.
      destruct (decide (k ∈ ASSETS.*1)) as [Hk|Hk].
      - apply list_elem_of_fmap in Hk as ([k' cfg] & -> & Hin). cbn [fst].
        by rewrite (Hprices k' cfg Hin), (Hall k' cfg Hin).
      - rewrite Hnone; [done|]. intros cfg Hin. exfalso. apply Hk.
        by apply (list_elem_of_fmap_2' fst ASSETS (k, cfg)). }
    by rewrite Hfile, Hempty.
  - intros (k & cfg & Hin & Hok).
    assert (size (day_prices s) ≠ 0%nat) as Hsize.
    { intros Hz. apply map_size_empty_iff in Hz.
      specialize (Hprices k cfg Hin). rewrite Hz, lookup_empty in Hprices.
      by destruct (get_asset_price k cfg (get_gbp_usd_rate yf) yf). }
    destruct (Nat.eqb_spec (size (day_prices s)) 0) as [|_]; [done|].
    eexists. split; [exact Hfile|]. intros Hv -> Hn.
    destruct (summary_write_entries now (load_history file) (day_prices s)
                (get_gbp_usd_rate yf) Hv Hn) as (others & -> & _).
    eexists. by rewrite last_snoc.
Qed.

(** X15. A summary write touches no other day: an entry dated otherwise than
    today is in the written history exactly when it was in the loaded one
    and its date string is not below the cutoff of the trim, and today's
    earlier entries are gone. *)
Theorem summary_write_keeps_other_days yf file now now_save r h' :
  cmd_summary yf file now now_save = Ok r →
  history_file r = Some h' →
  (∃ k cfg, (k, cfg) ∈ ASSETS ∧
     get_asset_price k cfg (get_gbp_usd_rate yf) yf ≠ None) →
  let cutoff_str := strftime_ymd (minus_days now_save HISTORY_DAYS) in
  (∀ e, date e ≠ strftime_ymd now →
        (e ∈ entries h' ↔
         e ∈ entries (load_history file) ∧
         str_ge (date e) cutoff_str = true))
  ∧ (∀ e, e ∈ entries h' → date e = strftime_ymd now →
          e = mkentry (strftime_ymd now) (prices e) (get_gbp_usd_rate yf) ∧
          ∀ k cfg, (k, cfg) ∈ ASSETS →
            prices e !! k =
              (λ pd, Some (price_gbp pd))
                <$> get_asset_price k cfg (get_gbp_usd_rate yf) yf).
Proof.
  intros Hr Hh' (k & cfg & Hin & Hok) cutoff_str.
  destruct (cmd_summary_spec yf file now now_save)
    as (s & more & tail & r' & Hloop & _ & Hr' & _ & Hfile).
  rewrite Hr in Hr'. injection Hr' as <-.
  pose proof (λ k cfg,
    summary_prices_lookup _ _ _ _
      (mksummary_state [Title; DateLine now; Blank] ∅) s k cfg
      ASSETS_NoDup eq_refl Hloop) as Hprices.
  assert (size (day_prices s) ≠ 0%nat) as Hsize.
  { intros Hz. apply map_size_empty_iff in Hz.
    specialize (Hprices k cfg Hin). rewrite Hz, lookup_empty in Hprices.
    by destruct (get_asset_price k cfg (get_gbp_usd_rate yf) yf). }
  destruct (Nat.eqb_spec (size (day_prices s)) 0) as [|_]; [done|].
  rewrite Hh' in Hfile. injection Hfile as ->. split.
  - intros e Hd. unfold save_history. cbn [entries]. fold cutoff_str.
    rewrite !list_elem_of_In, List.filter_In, List.in_app_iff, List.filter_In.
    unfold str_ne. split.
    + intros [[[He _]|[<-|[]]] Hge]; done.
    + intros [He Hge]. split; [|done]. left. split; [done|].
      apply negb_true_iff. by apply String.eqb_neq.
  - intros e He Hd.
    rewrite (written_today_entry _ _ _ _ e eq_refl He Hd). cbn [prices].
    split; [done|]. apply Hprices.
Qed.

Lemma summary_write_keeps_other_days_witness :
  let now := mkdatetime 2024 3 1 in
  let yf : provider := λ t _,
    if String.eqb t "ISWD.L" then Ok [mkbar 1 1; mkbar 1 1.5]%float
    else Raise ProviderError in
  let yesterday := mkentry "2024-02-29" {[ "iswd" := Some 1%float ]} None in
  let stale := mkentry "2024-03-01" {[ "hbks" := Some 7%float ]} None in
  let file := Some (mkhistory [yesterday; stale]) in
  ∃ r h',
    cmd_summary yf file now now = Ok r ∧ history_file r = Some h' ∧
    yesterday ∈ entries h' ∧ stale ∉ entries h'.
Proof.
  intros now yf yesterday stale file.
  destruct (cmd_summary_total yf file now now) as [r Hr].
  assert (∃ h', history_file r = Some h') as [h' Hh'].
  { vm_compute in Hr. injection Hr as <-. eauto. }
  destruct (summary_write_keeps_other_days yf file now now r h' Hr Hh')
    as [Hother Htoday].
  { exists "iswd", (mkasset "ISWD.L" "ISWD" "📈" "GBP" "").
    split; [right; left|by vm_compute]. }
  exists r, h'. split; [done|]. split; [done|]. split.
  - apply Hother; [by vm_compute|]. split; [left|by vm_compute].
  - intros Hin. destruct (Htoday stale Hin eq_refl) as [_ Hp].
    specialize (Hp "hbks" (mkasset "HBKS.L" "HBKS" "📊" "GBP" "")
                  ltac:(do 2 right; left)).
    by vm_compute in Hp.
Defined.

Lemma filter_cutoff_twice (c1 c2 : string) (l : list entry) :
  str_ge c2 c1 = true →
  List.filter (λ e, str_ge (date e) c2)
    (List.filter (λ e, str_ge (date e) c1) l) =
  List.filter (λ e, str_ge (date e) c2) l.
Proof.
  intros Hcut. induction l as [|e l IH]; [reflexivity|]. cbn [List.filter].
  destruct (str_ge (date e) c2) eqn:E2.
  - assert (str_ge (date e) c1 = true) as ->.
    { unfold str_ge in *. eapply string_leb_trans; eassumption. }
    cbn [List.filter]. rewrite E2, IH. reflexivity.
  - destruct (str_ge (date e) c1); [|exact IH].
    cbn [List.filter]. rewrite E2. exact IH.
Qed.

(** X16. Trims compose: saving on a valid day and saving again on the same
    or a later valid day leaves what the later save alone would leave; in
    particular a second save on the same day changes nothing. *)
Theorem save_history_twice d1 d2 h :
  valid d1 → valid d2 →
  Z.of_nat HISTORY_DAYS < toordinal d1 → toordinal d1 ≤ toordinal d2 →
  save_history d2 (save_history d1 h) = save_history d2 h.
Proof.
  intros H1 H2 Hn Hle.
  destruct (cutoff_ordinal d1 H1 Hn) as [Hv1 Ho1].
  assert (Z.of_nat HISTORY_DAYS < toordinal d2) as Hn2 by lia.
  destruct (cutoff_ordinal d2 H2 Hn2) as [Hv2 Ho2].
  unfold save_history. f_equal. apply filter_cutoff_twice.
  rewrite str_ge_strftime by assumption. apply Z.leb_le. lia.
Qed.

Lemma save_history_twice_witness :
  let h := mkhistory [mkentry "2023-12-01" ∅ None;
                      mkentry "2023-12-02" ∅ None;
                      mkentry "2024-02-29" ∅ None] in
  save_history (mkdatetime 2024 3 2) (save_history (mkdatetime 2024 3 1) h)
    = save_history (mkdatetime 2024 3 2) h.
Proof.
  intros h. apply save_history_twice; [valid_date|valid_date|..];
    by vm_compute.
Defined.


(** ** Trend calculator *)

Lemma NoDup_fmap_eq {A B} (f : A → B) (l : list A) x y :
  NoDup (f <$> l) → x ∈ l → y ∈ l → f x = f y → x = y.
Proof.
  induction l as [|z l IH]; [by intros _ ?%elem_of_nil|].
  rewrite fmap_cons. intros [Hz Hnd]%NoDup_cons Hx Hy Hf.
  apply elem_of_cons in Hx as [->|Hx]; apply elem_of_cons in Hy as [->|Hy];
    try done.
  - exfalso. apply Hz. rewrite Hf. by apply list_elem_of_fmap_2.
  - exfalso. apply Hz. rewrite <- Hf. by apply list_elem_of_fmap_2.
  - by apply IH.
Qed.

(** With one entry per date, the newest-first order is a function of the
    set of priced entries. *)
Lemma newest_first_perm h1 h2 k :
  relevant h1 k ≡ₚ relevant h2 k →
  NoDup (date <$> relevant h1 k) →
  newest_first h1 k = newest_first h2 k.
Proof.
  intros Hperm Hnd.
  apply (StronglySorted_unique_strong (newer_or_same date)).
  - intros x1 x2 H1%newest_first_elem_of H2%newest_first_elem_of H12 H21.
    apply (NoDup_fmap_eq date (relevant h1 k)); [done|done| |].
    + by rewrite Hperm.
    + unfold newer_or_same, str_ge in *. by apply String.leb_antisym.
  - apply newest_first_sorted.
  - apply newest_first_sorted.
  - unfold newest_first. by rewrite !sort_desc_perm.
Qed.

(** X18. The trend depends only on the set of entries that hold a price for
    the instrument, as long as no two of them share a date: the order of the
    entries in the store, and entries without a price for the instrument
    (other instruments only, or a null price), make no difference. *)
Theorem trend_depends_on_priced_entries h1 h2 k (days : Z) :
  relevant h1 k ≡ₚ relevant h2 k →
  NoDup (date <$> relevant h1 k) →
  calculate_trend h1 k days = calculate_trend h2 k days.
Proof.
  intros Hperm Hnd. rewrite !calculate_trend_unfold. unfold past_entry.
  rewrite (newest_first_perm h1 h2 k Hperm Hnd).
  by rewrite (Permutation_length Hperm).
Qed.

Lemma trend_depends_on_priced_entries_witness :
  let a := mkentry "2024-02-27" {[ "iswd" := Some 1%float ]} None in
  let b := mkentry "2024-02-28" {[ "iswd" := Some 2%float ]} None in
  let c := mkentry "2024-02-29" {[ "iswd" := None ]} None in
  let d := mkentry "2024-03-01" {[ "hbks" := Some 7%float ]} None in
  calculate_trend (mkhistory [c; b; d; a]) "iswd" 5 =
    calculate_trend (mkhistory [a; b]) "iswd" 5.
Proof.
  intros a b c d. apply trend_depends_on_priced_entries.
  - vm_compute. apply Permutation_swap.
  - apply (bool_decide_unpack _). by vm_compute.
Defined.

(** X19. A negative window is read as a Python index from the end of the
    newest-first list: with [count] priced entries, two or more, a window
    below [-count] raises [IndexError], which [calculate_trend] does not
    catch, and a window from [-count] to [-1] takes the entry at position
    [count + days] as the past one. *)
Theorem trend_negative_window h k (days : Z) :
  let count := Z.of_nat (length (relevant h k)) in
  2 ≤ count → days < 0 →
  (days < - count → calculate_trend h k days = Raise IndexError)
  ∧ (- count ≤ days →
     ∃ e, newest_first h k !! Z.to_nat (count + days) = Some e ∧
          past_entry h k days = Ok e).
Proof.
  intros count Hc Hd.
  assert (Z.of_nat (length (newest_first h k)) = count) as Hlen
    by (unfold count; by rewrite newest_first_length).
  assert (past_entry h k days = getitem (newest_first h k) days) as Hp.
  { unfold past_entry. rewrite Hlen.
    by destruct (Z.leb_spec count days); [lia|]. }
  split.
  - intros Hlow. rewrite calculate_trend_unfold. fold count.
    destruct (Z.ltb_spec count 2); [lia|].
    destruct (trend_current_ok h k Hc) as (newest & current & _ & Hg & Hcur).
    rewrite Hg. cbn [mbind result_bind Py.bind].
    rewrite Hcur. cbn [mbind result_bind Py.bind].
    rewrite Hp. unfold getitem.
    rewrite Hlen. destruct (Z.ltb_spec days 0); [|lia].
    by destruct (Z.ltb_spec (days + count) 0); [|lia].
  - intros Hhigh. rewrite Hp. unfold getitem. rewrite Hlen.
    destruct (Z.ltb_spec days 0); [|lia].
    destruct (Z.ltb_spec (days + count) 0); [lia|].
    destruct (Z.leb_spec count (days + count)); [lia|]. cbn [orb].
    replace (count + days) with (days + count) by lia.
    destruct (lookup_lt_is_Some_2 (newest_first h k)
                (Z.to_nat (days + count))) as [e He]; [lia|].
    exists e. by rewrite He.
Qed.

Lemma trend_negative_window_witness :
  let h := mkhistory
             [mkentry "2024-02-27" {[ "iswd" := Some 1%float ]} None;
              mkentry "2024-02-28" {[ "iswd" := Some 2%float ]} None] in
  calculate_trend h "iswd" (-3) = Raise IndexError.
Proof.
  intros h.
  by apply (proj1 (trend_negative_window h "iswd" (-3)
                     ltac:(by vm_compute) ltac:(lia))).
Defined.

(** ** Invariants of the two stores *)

(** X20. The fired list stays a set: if the alert store read by a watch
    cycle lists no key twice, neither does the store it writes. *)
Theorem fired_list_stays_duplicate_free config yf file now_load now_save :
  (∀ st, file = Some st → NoDup (fired st)) →
  ∃ r,
    cmd_watch config yf file now_load now_save = Ok r ∧
    NoDup (fired (alerts_file r)).
Proof.
  intros Hfile.
  destruct (cmd_watch_due config yf file now_load now_save)
    as (r & texts & Hr & Hf & Hnd & Hlog & _).
  exists r. split; [done|]. rewrite Hf. cbn [fired]. apply NoDup_app.
  split; [|split; [|done]].
  - unfold load_alerts_state. destruct file as [st|]; [|apply NoDup_nil_2].
    case_bool_decide; [apply NoDup_nil_2|by apply Hfile].
  - intros key Hin Hlogged. by apply Hlog in Hlogged as [Hnot _].
Qed.

Lemma fired_list_stays_duplicate_free_witness :
  let today := mkdatetime 2024 3 1 in
  let yf : provider := λ t _,
    if String.eqb t "ISWD.L" then Ok [mkbar 100 100; mkbar 100 200]%float
    else Raise ProviderError in
  let file := Some (mkstate (Some "2024-03-01") ["intraday_iswd_+"]) in
  ∃ r, cmd_watch (mkconfig None None) yf file today today = Ok r ∧
       NoDup (fired (alerts_file r)).
Proof.
  intros today yf file.
  apply fired_list_stays_duplicate_free.
  intros st [= <-]. apply (bool_decide_unpack _). by vm_compute.
Defined.

Lemma sublist_filter_date {A} (f : A → bool) (l : list A) :
  sublist (List.filter f l) l.
Proof.
  induction l as [|x l IH]; simpl; [constructor|].
  destruct (f x); by constructor.
Qed.

Lemma written_dates_unique (today cutoff : string) (old : list entry) new :
  date new = today → NoDup (date <$> old) →
  NoDup (date <$>
           List.filter (λ e, str_ge (date e) cutoff)
             (List.filter (λ e, str_ne (date e) today) old ++ [new])).
Proof.
  intros Hnew Hnd.
  apply (sublist_NoDup _
           (date <$> (List.filter (λ e, str_ne (date e) today) old
                      ++ [new]))).
  2:{ apply fmap_sublist, sublist_filter_date. }
  rewrite fmap_app. apply NoDup_app. split; [|split].
  - apply (sublist_NoDup _ (date <$> old)); [exact Hnd|].
    apply fmap_sublist, sublist_filter_date.
  - intros d Hd Hin. apply list_elem_of_singleton in Hin as ->.
    apply list_elem_of_fmap in Hd as (e & He & Hin).
    apply list_elem_of_In, List.filter_In in Hin as [_ Hin].
    unfold str_ne in Hin. by rewrite <- He, Hnew, String.eqb_refl in Hin.
  - apply NoDup_singleton.
Qed.

(** X21. Dates stay unique in the history: if no two entries of the loaded
    history share a date, no two entries of the history written by a
    summary do, today's date included. *)
Theorem history_dates_stay_unique yf file now now_save r h' :
  NoDup (date <$> entries (load_history file)) →
  cmd_summary yf file now now_save = Ok r →
  history_file r = Some h' →
  NoDup (date <$> entries h').
Proof.
  intros Hnd Hr Hh'.
  destruct (cmd_summary_spec yf file now now_save)
    as (s & more & tail & r' & _ & _ & Hr' & _ & Hfile).
  rewrite Hr in Hr'. injection Hr' as <-. rewrite Hh' in Hfile.
  destruct (size (day_prices s) =? 0)%nat.
  { rewrite <- Hfile in Hnd. exact Hnd. }
  injection Hfile as ->. unfold save_history. cbn [entries].
  by apply written_dates_unique.
Qed.

Lemma history_dates_stay_unique_witness :
  let now := mkdatetime 2024 3 1 in
  let yf : provider := λ t _,
    if String.eqb t "ISWD.L" then Ok [mkbar 1 1; mkbar 1 1.5]%float
    else Raise ProviderError in
  let file := Some (mkhistory [mkentry "2024-02-29" ∅ None;
                               mkentry "2024-03-01" ∅ None]) in
  ∃ r h', cmd_summary yf file now now = Ok r ∧ history_file r = Some h' ∧
          NoDup (date <$> entries h').
Proof.
  intros now yf file.
  destruct (cmd_summary_total yf file now now) as [r Hr].
  assert (∃ h', history_file r = Some h') as [h' Hh'].
  { vm_compute in Hr. injection Hr as <-. eauto. }
  exists r, h'. split; [done|]. split; [done|].
  apply (history_dates_stay_unique yf file now now r h'); [|done..].
  apply (bool_decide_unpack _). by vm_compute.
Defined.

Lemma summary_asset_prices rate yf h s k cfg s' :
  summary_asset rate yf h s (k, cfg) = Ok s' →
  day_prices s' =
    match get_asset_price k cfg rate yf with
    | Some pd => <[k := Some (price_gbp pd)]> (day_prices s)
    | None => day_prices s
    end.
Proof.
  destruct (get_asset_price k cfg rate yf) as [pd|] eqn:E.
  - destruct (summary_asset_priced rate yf h s k cfg pd E) as [more ->].
    by intros [= <-].
  - rewrite summary_asset_unavailable by done. by intros [= <-].
Qed.

(** The prices gathered by a summary do not depend on the history. *)
Lemma summary_loop_prices rate yf h1 h2 l s1 s2 s1' s2' :
  day_prices s1 = day_prices s2 →
  for_each (summary_asset rate yf h1) l s1 = Ok s1' →
  for_each (summary_asset rate yf h2) l s2 = Ok s2' →
  day_prices s1' = day_prices s2'.
Proof.
  revert s1 s2. induction l as [|[k cfg] l IH]; intros s1 s2 Hs.
  { by intros [= <-] [= <-]. }
  cbn [for_each].
  destruct (summary_asset rate yf h1 s1 (k, cfg)) as [t1|] eqn:E1; [|done].
  destruct (summary_asset rate yf h2 s2 (k, cfg)) as [t2|] eqn:E2; [|done].
  apply IH.
  rewrite (summary_asset_prices _ _ _ _ _ _ _ E1),
          (summary_asset_prices _ _ _ _ _ _ _ E2).
  by rewrite Hs.
Qed.

Lemma filter_filter_same {A} (f : A → bool) (l : list A) :
  List.filter f (List.filter f l) = List.filter f l.
Proof.
  induction l as [|x l IH]; [done|]. cbn [List.filter].
  destruct (f x) eqn:E; [|done]. cbn [List.filter]. by rewrite E, IH.
Qed.

Lemma filter_filter_swap {A} (f g : A → bool) (l : list A) :
  List.filter f (List.filter g l) = List.filter g (List.filter f l).
Proof.
  induction l as [|x l IH]; [done|]. cbn [List.filter].
  destruct (g x) eqn:Eg, (f x) eqn:Ef; cbn [List.filter];
    rewrite ?Eg, ?Ef, IH; done.
Qed.

(** Writing today's entry over a history that already holds it. *)
Lemma rewrite_today_entry {A} (keep other_day : A → bool) (old : list A) new :
  other_day new = false →
  List.filter keep
    (List.filter other_day
       (List.filter keep (List.filter other_day old ++ [new])) ++ [new]) =
  List.filter keep (List.filter other_day old ++ [new]).
Proof.
  intros Hnew. rewrite !List.filter_app.
  assert (List.filter other_day (List.filter keep [new]) = []) as ->.
  { cbn [List.filter]. destruct (keep new); cbn [List.filter];
      by rewrite ?Hnew. }
  change (List.filter keep []) with (@nil A). rewrite app_nil_r.
  rewrite (filter_filter_swap other_day keep (List.filter other_day old)).
  by rewrite !filter_filter_same.
Qed.

(** X22. The daily summary is idempotent on the history: a second run on the
    same date with the same market answers leaves the store exactly as the
    first run left it. *)
Theorem summary_twice_same_store yf file now r1 r2 :
  cmd_summary yf file now now = Ok r1 →
  cmd_summary yf (history_file r1) now now = Ok r2 →
  history_file r2 = history_file r1.
Proof.
  intros H1 H2.
  destruct (cmd_summary_spec yf file now now)
    as (s1 & _ & _ & r1' & Hloop1 & _ & Hr1 & _ & Hfile1).
  rewrite H1 in Hr1. injection Hr1 as <-.
  destruct (cmd_summary_spec yf (history_file r1) now now)
    as (s2 & _ & _ & r2' & Hloop2 & _ & Hr2 & _ & Hfile2).
  rewrite H2 in Hr2. injection Hr2 as <-.
  assert (day_prices s2 = day_prices s1) as Hp
    by (by eapply summary_loop_prices).
  rewrite Hp in Hfile2.
  destruct (size (day_prices s1) =? 0)%nat; [done|].
  rewrite Hfile2, Hfile1. cbn [load_history]. f_equal.
  unfold save_history. cbn [entries]. f_equal.
  apply rewrite_today_entry.
  unfold str_ne. cbn [date]. by rewrite String.eqb_refl.
Qed.

Lemma summary_twice_same_store_witness :
  let now := mkdatetime 2024 3 1 in
  let yf : provider := λ t _,
    if String.eqb t "ISWD.L" then Ok [mkbar 1 1; mkbar 1 1.5]%float
    else Raise ProviderError in
  let file := Some (mkhistory [mkentry "2024-02-29" ∅ None;
                               mkentry "2024-03-01" ∅ None]) in
  ∃ r1 r2,
    cmd_summary yf file now now = Ok r1 ∧
    cmd_summary yf (history_file r1) now now = Ok r2 ∧
    history_file r2 = history_file r1.
Proof.
  intros now yf file.
  destruct (cmd_summary_total yf file now now) as [r1 H1].
  destruct (cmd_summary_total yf (history_file r1) now now) as [r2 H2].
  exists r1, r2. split; [done|]. split; [done|].
  by apply (summary_twice_same_store yf file now).
Defined.
